(** * Yt_Video_Splitter: segment planning, time parsing and filter composition

    A shallow embedding of the two scripts [Yt_Split_Portrait.py] and
    [Yt_Split_FullScreen.py].

    Numbers.  A Python [float] that is finite is modelled by the rational
    number it denotes ([Q]); the non-finite values that [float(...)] can
    also return ([inf], [-inf], [nan]) are kept as separate constructors of
    [pyfloat], with the comparison and arithmetic rules Python gives them.
    The result of [float(...)], of [*], [+] and of the subtraction
    [end - start] is rounded as binary64 arithmetic rounds it
    ([Float64.round]: to the nearest double, a tie to the even one); the
    literal [0.1] is the double [Float64.tenth].  Comparisons and sorting
    are exact, as they are on doubles.  The duration printed by the prober
    is taken to be a finite number; the 60-second mode works on it with
    whole multiples of 60, and its quotient, remainder and difference are
    the exact ones.

    The outside world.  The prober, the encoder and the file system are
    inputs of the model (record [Env]); what [main] does to them is the list
    of [Event]s it returns, in program order. *)

From Stdlib Require Import List String Ascii Bool ZArith QArith Qround Qminmax.
From Stdlib Require Import Lia Lqa.
From Stdlib Require Import Sorting.Sorted Sorting.Permutation.
From Stdlib Require Import DecimalString.
From Stdlib Require Decimal DecimalPos.
Import ListNotations.

Local Open Scope string_scope.
Local Open Scope Q_scope.

(** ** Python floats *)

Inductive pyfloat : Type :=
| Fin (q : Q)
| PInf
| NInf
| NaN.

(** ** Rounding to binary64

    A double is zero, or [m * 2^e] with [2^52 <= |m| < 2^53] and
    [-1074 <= e <= 971], or [m * 2^-1074] with [|m| < 2^52]. *)

Module Float64.

(** [n / d] for [n >= 0] and [d > 0], rounded to the nearest integer, a tie
    going to the even one. *)
Definition round_half_even (n d : Z) : Z :=
  let q := (n / d)%Z in
  match (2 * (n mod d) ?= d)%Z with
  | Lt => q
  | Gt => (q + 1)%Z
  | Eq => if Z.even q then q else (q + 1)%Z
  end.

(** The integer [k] with [2^k <= n / d < 2^(k+1)], for [n, d > 0]. *)
Definition ilog2 (n d : Z) : Z :=
  let k := (Z.log2 n - Z.log2 d)%Z in
  if (if 0 <=? k then n <? d * 2 ^ k else n * 2 ^ (- k) <? d)%Z
  then (k - 1)%Z else k.

(** [n / d], for [n, d > 0], rounded to 53 significant bits, or to a
    multiple of [2^-1074] when it is below [2^-1022]. *)
Definition round_abs (n d : Z) : Q :=
  let e := Z.max (ilog2 n d - 52) (-1074) in
  if (0 <=? e)%Z
  then inject_Z (round_half_even n (d * 2 ^ e) * 2 ^ e)
  else Qred (round_half_even (n * 2 ^ (- e)) d # Z.to_pos (2 ^ (- e))).

(** The double nearest to [q], were the exponent of a double unbounded
    above. *)
Definition round_q (q : Q) : Q :=
  let r := Qred q in
  match Qnum r with
  | Z0 => 0
  | Zpos p => round_abs (Zpos p) (QDen r)
  | Zneg p => - round_abs (Zpos p) (QDen r)
  end.

(** The double nearest to [q]: an infinity from [2^1024 - 2^970] on. *)
Definition round (q : Q) : pyfloat :=
  let r := round_q q in
  if Qle_bool (inject_Z (2 ^ 1024)) r then PInf
  else if Qle_bool r (- inject_Z (2 ^ 1024)) then NInf
  else Fin r.

(** [a - b] on finite floats whose difference does not overflow. *)
Definition sub (a b : Q) : Q := round_q (a - b).

(** [a + b] on finite floats whose sum does not overflow. *)
Definition add (a b : Q) : Q := round_q (a + b).

(** The literal [0.1]. *)
Definition tenth : Q := 3602879701896397 # 36028797018963968.

End Float64.

Module PyFloat.

(** [x * y] on floats. *)
Definition mul (x y : pyfloat) : pyfloat :=
  match x, y with
  | NaN, _ | _, NaN => NaN
  | Fin a, Fin b => Float64.round (a * b)
  | Fin a, PInf | PInf, Fin a =>
      if Qeq_bool a 0 then NaN else if Qle_bool 0 a then PInf else NInf
  | Fin a, NInf | NInf, Fin a =>
      if Qeq_bool a 0 then NaN else if Qle_bool 0 a then NInf else PInf
  | PInf, PInf | NInf, NInf => PInf
  | PInf, NInf | NInf, PInf => NInf
  end.

(** [x + y] on floats. *)
Definition add (x y : pyfloat) : pyfloat :=
  match x, y with
  | NaN, _ | _, NaN => NaN
  | Fin a, Fin b => Float64.round (a + b)
  | PInf, NInf | NInf, PInf => NaN
  | PInf, _ | _, PInf => PInf
  | NInf, _ | _, NInf => NInf
  end.

(** [x < y]: every comparison with [nan] is false. *)
Definition ltb (x y : pyfloat) : bool :=
  match x, y with
  | NaN, _ | _, NaN => false
  | Fin a, Fin b => negb (Qle_bool b a)
  | _, NInf => false
  | NInf, _ => true
  | PInf, _ => false
  | Fin _, PInf => true
  end.

Definition of_Z (z : Z) : pyfloat := Fin (inject_Z z).

End PyFloat.

(** ** Strings, as Python's [str] methods and [float] constructor see them

    Text is ASCII, one character per byte.  [float] follows the grammar of
    the Python reference: white space around the literal, an optional sign,
    then [inf], [infinity] or [nan] in any case, or decimal digits with at
    most one point, single underscores between digits, and an optional
    exponent.  The value of a decimal literal is the double nearest to the
    decimal number it writes. *)

Module PyStr.

Definition chars : string -> list ascii := list_ascii_of_string.
Definition of_chars : list ascii -> string := string_of_list_ascii.

(** [c in s] for a one-character [c]. *)
Definition contains (c : ascii) (s : string) : bool :=
  existsb (Ascii.eqb c) (chars s).

(** [s.split(c)]: the fields between the occurrences of [c]; a string
    without [c] gives one field, the string itself. *)
Fixpoint split_chars (c : ascii) (cur : list ascii) (l : list ascii)
  : list (list ascii) :=
  match l with
  | [] => [rev cur]
  | x :: l' =>
      if Ascii.eqb x c then rev cur :: split_chars c [] l'
      else split_chars c (x :: cur) l'
  end.

Definition split (c : ascii) (s : string) : list string :=
  map of_chars (split_chars c [] (chars s)).

(** [sep.join(l)]. *)
Fixpoint join (sep : string) (l : list string) : string :=
  match l with
  | [] => ""
  | [x] => x
  | x :: l' => x ++ sep ++ join sep l'
  end.

(** The white space [float] strips from both ends of an ASCII string:
    space, and the control characters 9 to 13. *)
Definition is_space (c : ascii) : bool :=
  let n := nat_of_ascii c in
  Nat.eqb n 32 || (Nat.leb 9 n && Nat.leb n 13).

Definition is_digit (c : ascii) : bool :=
  let n := nat_of_ascii c in Nat.leb 48 n && Nat.leb n 57.

Fixpoint lstrip (l : list ascii) : list ascii :=
  match l with
  | c :: l' => if is_space c then lstrip l' else l
  | [] => []
  end.

Definition strip (l : list ascii) : list ascii :=
  rev (lstrip (rev (lstrip l))).

(** Underscores in a numeric literal: allowed only between two digits;
    they are removed before the number is read.  [prev] is the previous
    character ([None] at the start). *)
Fixpoint drop_underscores (prev : option ascii) (l : list ascii)
  : option (list ascii) :=
  match l with
  | [] =>
      match prev with
      | Some "_"%char => None
      | _ => Some []
      end
  | c :: l' =>
      if Ascii.eqb c "_" then
        match prev with
        | Some p => if is_digit p then drop_underscores (Some c) l' else None
        | None => None
        end
      else
        match prev with
        | Some "_"%char =>
            if is_digit c
            then option_map (cons c) (drop_underscores (Some c) l')
            else None
        | _ => option_map (cons c) (drop_underscores (Some c) l')
        end
  end.

(** Lower-casing of the ASCII letters, for the names [inf], [infinity]
    and [nan], which are read without regard to case. *)
Definition lower (c : ascii) : ascii :=
  let n := nat_of_ascii c in
  if Nat.leb 65 n && Nat.leb n 90 then ascii_of_nat (n + 32) else c.

(** The longest prefix of digits and the rest. *)
Fixpoint span_digits (l : list ascii) : list ascii * list ascii :=
  match l with
  | c :: l' =>
      if is_digit c
      then let (d, r) := span_digits l' in (c :: d, r)
      else ([], l)
  | [] => ([], [])
  end.

Definition digit_val (c : ascii) : Z := Z.of_nat (nat_of_ascii c) - 48.

(** The number a list of digits denotes in base ten. *)
Definition digits_val (l : list ascii) : Z :=
  fold_left (fun acc c => 10 * acc + digit_val c)%Z l 0%Z.

(** An optional sign: [true] when it is a minus. *)
Definition take_sign (l : list ascii) : bool * list ascii :=
  match l with
  | "-"%char :: l' => (true, l')
  | "+"%char :: l' => (false, l')
  | _ => (false, l)
  end.

(** The exponent part: nothing, or [e]/[E], an optional sign and at least
    one digit, up to the end of the text. *)
Definition read_exponent (l : list ascii) : option Z :=
  match l with
  | [] => Some 0%Z
  | c :: l' =>
      if Ascii.eqb (lower c) "e" then
        let (neg, l'') := take_sign l' in
        match span_digits l'' with
        | ((_ :: _) as d, []) =>
            Some (if neg then - digits_val d else digits_val d)%Z
        | _ => None
        end
      else None
  end.

(** [m * 10^e] as a rational in lowest terms. *)
Definition scale10 (m e : Z) : Q :=
  Qred (inject_Z m * Qpower (10 # 1) e).

(** The unsigned part of a literal: a name of a non-finite value, or
    digits with at most one point (at least one digit in all) and an
    optional exponent. *)
Definition read_abs (l : list ascii) : option pyfloat :=
  let name := of_chars (map lower l) in
  if String.eqb name "inf" || String.eqb name "infinity" then Some PInf
  else if String.eqb name "nan" then Some NaN
  else
    let (ip, r) := span_digits l in
    let (fp, r') :=
      match r with
      | "."%char :: r1 => span_digits r1
      | _ => ([], r)
      end in
    match (ip ++ fp)%list with
    | [] => None
    | ds =>
        match read_exponent r' with
        | Some e =>
            Some (Float64.round
                    (scale10 (digits_val ds) (e - Z.of_nat (List.length fp))))
        | None => None
        end
    end.

(** Negation of a float. *)
Definition neg (x : pyfloat) : pyfloat :=
  match x with
  | Fin q => Fin (- q)
  | PInf => NInf
  | NInf => PInf
  | NaN => NaN
  end.

(** [float(s)] for a string [s]; [None] stands for [ValueError]. *)
Definition float (s : string) : option pyfloat :=
  match drop_underscores None (strip (chars s)) with
  | None => None
  | Some l =>
      let (sg, l') := take_sign l in
      option_map (fun x => if sg then neg x else x) (read_abs l')
  end.

End PyStr.

(** Decimal text of an integer, as [str(n)] and an f-string field give it. *)
Definition str_of_Z (z : Z) : string := NilZero.string_of_int (Z.to_int z).

Definition str_of_nat (n : nat) : string := str_of_Z (Z.of_nat n).

(** The f-string field [{n:03d}] for a non-negative [n]: at least three
    digits, padded with zeros on the left. *)
Definition pad3 (n : nat) : string :=
  let s := str_of_nat n in
  match String.length s with
  | 0%nat => "000" ++ s
  | 1%nat => "00" ++ s
  | 2%nat => "0" ++ s
  | _ => s
  end.

(** [a < b] on finite values, as a boolean. *)
Definition Qltb (a b : Q) : bool := negb (Qle_bool b a).

(** ** What the scripts do to the outside world *)

(** One call of the encoder: [-ss start], [-t length], the output file, and
    the [-vf] filter graph ([None]: the video stream is copied). *)
Record SegmentJob : Type := mkJob {
  job_start : Q;
  job_length : Q;
  job_output : string;
  job_filter : option string
}.

(** The lines the scripts print. *)
Inductive Message : Type :=
| FFmpegNotFound
| BinariesNotFound
| InputFileNotFound (path : string)
| OutputDirectory (folder : string)
| Processing60
| SegmentsCreated60
| SegmentSplitFailed
| ErrorGettingDuration
| FFmpegError
| ErrorProcessingSegment
| ProcessingSegmentOf (i n : Z)
| ProcessingCompleted
| Created60 (n : Z)
| CustomRequiresSplitTimes
| InvalidTimeFormat (t : string)
| NoValidSegments
| CreatingCustom (n : nat)
| ProcessingSegment (idx : nat) (from to : Q)
| AllSegmentsCreated.

(** The messages that report an error. *)
Definition is_error (m : Message) : bool :=
  match m with
  | FFmpegNotFound | BinariesNotFound | InputFileNotFound _
  | SegmentSplitFailed | ErrorGettingDuration | FFmpegError
  | ErrorProcessingSegment | CustomRequiresSplitTimes
  | InvalidTimeFormat _ | NoValidSegments => true
  | _ => false
  end.

Inductive Event : Type :=
| Print (m : Message)
| Exit (code : Z)
| MakeDirs (folder : string)
| SegmentMux (pattern : string)
| Encode (j : SegmentJob).

(** The outside world: which binaries and files exist, what [os.path]
    makes of a path ([base_name_of] is the file name without directory and
    extension), what the prober prints for a file ([None]: it exited with an
    error, or printed no number), whether the stream-copy segmenter
    succeeds, and whether a call of the encoder succeeds.  A binary that is
    called is taken to start. *)
Record Env : Type := mkEnv {
  ffmpeg_present : bool;
  ffprobe_present : bool;
  is_file : string -> bool;
  base_name_of : string -> string;
  path_join : string -> string -> string;
  probe : string -> option Q;
  mux_ok : bool;
  encode_ok : SegmentJob -> bool
}.

(** The encoder calls among the events, in order. *)
Fixpoint encodes (evs : list Event) : list SegmentJob :=
  match evs with
  | [] => []
  | Encode j :: evs' => j :: encodes evs'
  | _ :: evs' => encodes evs'
  end.

(** The error messages among the events. *)
Fixpoint errors (evs : list Event) : list Message :=
  match evs with
  | [] => []
  | Print m :: evs' => if is_error m then m :: errors evs' else errors evs'
  | _ :: evs' => errors evs'
  end.

(** [sorted(l)] on finite values: a stable sort that only asks [y < x]. *)
Fixpoint insert_sorted (x : Q) (l : list Q) : list Q :=
  match l with
  | [] => [x]
  | y :: l' => if Qltb y x then y :: insert_sorted x l' else x :: l
  end.

Definition sorted (l : list Q) : list Q := fold_right insert_sorted [] l.

(** [int(duration // 60) + (1 if duration % 60 > 0 else 0)]: the floor
    division and the remainder of a float by the positive constant 60. *)
Definition floordiv60 (d : Q) : Z := Qfloor (d / 60).
Definition mod60 (d : Q) : Q := d - 60 * inject_Z (floordiv60 d).
Definition segment_count (d : Q) : Z :=
  (floordiv60 d + (if Qltb 0 (mod60 d) then 1 else 0))%Z.

(** [range(n)] for an integer [n]: empty when [n] is not positive. *)
Definition range (n : Z) : list nat := seq 0 (Z.to_nat n).

(** [if s:] on a value that is a string or [None]. *)
Definition truthy (o : option string) : option string :=
  match o with
  | Some s => if String.eqb s "" then None else Some s
  | None => None
  end.

(** ** Yt_Split_Portrait.py *)

Module Portrait.

Record Args : Type := mkArgs {
  input_video : string;
  output_dir : string;
  split_option : string;
  split_times : option (list string);
  aspect : string
}.

(** [get_video_duration]: the number the prober printed, and the line the
    function prints itself when it has none. *)
Definition get_video_duration (env : Env) (input : string)
  : list Event * option Q :=
  match probe env input with
  | Some d => ([], Some d)
  | None => ([Print ErrorGettingDuration], None)
  end.

(** [list(map(float, fields))]: the first field [float] rejects raises. *)
Fixpoint floats (fields : list string) : option (list pyfloat) :=
  match fields with
  | [] => Some []
  | f :: fields' =>
      match PyStr.float f with
      | None => None
      | Some x => option_map (cons x) (floats fields')
      end
  end.

(** [parse_time]: [None] is the function's [return None], reached from
    every [ValueError]; the line it prints there is emitted by [main]. *)
Definition parse_time (time_str : string) : option pyfloat :=
  if PyStr.contains ":" time_str then
    match floats (PyStr.split ":" time_str) with
    | None => None
    | Some [h; m; s] =>
        Some (PyFloat.add
                (PyFloat.add (PyFloat.mul h (PyFloat.of_Z 3600))
                             (PyFloat.mul m (PyFloat.of_Z 60)))
                s)
    | Some [m; s] =>
        Some (PyFloat.add (PyFloat.mul m (PyFloat.of_Z 60)) s)
    | Some _ => None
    end
  else PyStr.float time_str.

Definition build_aspect_filter (aspect : string) : option string :=
  if String.eqb aspect "portrait" then
    Some ("scale=1080:1920:force_original_aspect_ratio=decrease,"
          ++ "pad=1080:1920:(ow-iw)/2:(oh-ih)/2:color=black")
  else if String.eqb aspect "landscape" then
    Some ("scale=1920:1080:force_original_aspect_ratio=decrease,"
          ++ "pad=1920:1080:(ow-iw)/2:(oh-ih)/2:color=black")
  else None.

(** The encoder call [split_video_segment] makes. *)
Definition segment_job (output_path : string) (start duration : Q)
    (aspect : string) : SegmentJob :=
  mkJob start duration output_path (truthy (build_aspect_filter aspect)).

(** [split_video_segment]: the call, and the error line on failure. *)
Definition split_video_segment (env : Env) (j : SegmentJob)
  : list Event * bool :=
  if encode_ok env j then ([Encode j], true)
  else ([Encode j; Print FFmpegError], false).

(** The job of iteration [i] of the 60-second loop: [-t] is the
    constant 60. *)
Definition fixed_job (env : Env) (output_folder base_name aspect : string)
    (i : nat) : SegmentJob :=
  segment_job
    (path_join env output_folder (base_name ++ "_" ++ pad3 (i + 1) ++ ".mp4"))
    (inject_Z (Z.of_nat i * 60)) 60 aspect.

(** The jobs the 60-second loop issues when none fails. *)
Definition fixed_jobs (env : Env) (output_folder base_name aspect : string)
    (duration : Q) : list SegmentJob :=
  map (fixed_job env output_folder base_name aspect)
      (range (segment_count duration)).

(** The 60-second loop: [true] when it ran to its end. *)
Fixpoint fixed_loop (env : Env) (jobs : list SegmentJob)
  : list Event * bool :=
  match jobs with
  | [] => ([], true)
  | j :: jobs' =>
      let (evs, success) := split_video_segment env j in
      if success then
        let (evs', done) := fixed_loop env jobs' in ((evs ++ evs')%list, done)
      else (evs, false)
  end.

(** The loop over [args.split_times]: the parsed values, or the first
    string [parse_time] rejects. *)
Fixpoint parse_all (ts : list string) : string + list pyfloat :=
  match ts with
  | [] => inr []
  | t :: ts' =>
      match parse_time t with
      | None => inl t
      | Some parsed =>
          match parse_all ts' with
          | inl bad => inl bad
          | inr ps => inr (parsed :: ps)
          end
      end
  end.

(** [0 < p < duration] for a finite [duration]. *)
Definition between (duration : Q) (p : pyfloat) : bool :=
  PyFloat.ltb (Fin 0) p && PyFloat.ltb p (Fin duration).

(** The finite values of a list; the comprehension below keeps no other. *)
Fixpoint finite_values (l : list pyfloat) : list Q :=
  match l with
  | [] => []
  | Fin q :: l' => q :: finite_values l'
  | _ :: l' => finite_values l'
  end.

(** [sorted([0] + [p for p in split_points if 0 < p < duration]
    + [duration])]. *)
Definition cut_points (split_points : list pyfloat) (duration : Q)
  : list Q :=
  sorted ((0 :: finite_values (filter (between duration) split_points))
            ++ [duration])%list.

(** The loop over adjacent cut points: [(start, end - start)] for each
    pair whose difference, as the float subtraction gives it, is greater
    than the float [0.1]. *)
Fixpoint segments_of (pts : list Q) : list (Q * Q) :=
  match pts with
  | [] => []
  | start :: rest =>
      match rest with
      | [] => []
      | end_ :: _ =>
          if Qltb Float64.tenth (Float64.sub end_ start)
          then (start, Float64.sub end_ start) :: segments_of rest
          else segments_of rest
      end
  end.

Definition custom_segments (split_points : list pyfloat) (duration : Q)
  : list (Q * Q) :=
  segments_of (cut_points split_points duration).

Definition custom_job (env : Env) (output_folder base_name aspect : string)
    (idx : nat) (seg : Q * Q) : SegmentJob :=
  segment_job
    (path_join env output_folder
       (base_name ++ "_part" ++ str_of_nat idx ++ ".mp4"))
    (fst seg) (snd seg) aspect.

(** The jobs of the custom loop, numbered from [idx], in order. *)
Fixpoint custom_jobs (env : Env) (output_folder base_name aspect : string)
    (idx : nat) (segments : list (Q * Q)) : list SegmentJob :=
  match segments with
  | [] => []
  | seg :: segments' =>
      custom_job env output_folder base_name aspect idx seg
        :: custom_jobs env output_folder base_name aspect (S idx) segments'
  end.

(** The loop over [enumerate(segments, 1)]. *)
Fixpoint custom_loop (env : Env) (output_folder base_name aspect : string)
    (idx : nat) (segments : list (Q * Q)) : list Event :=
  match segments with
  | [] => [Print AllSegmentsCreated]
  | seg :: segments' =>
      let (evs, success) :=
        split_video_segment env
          (custom_job env output_folder base_name aspect idx seg) in
      (Print (ProcessingSegment idx (fst seg)
                (Float64.add (fst seg) (snd seg))) :: evs)
        ++ (if success
            then custom_loop env output_folder base_name aspect
                             (S idx) segments'
            else [])
  end%list.

(** The 60-second branch of [main]. *)
Definition main_fixed (env : Env) (args : Args)
    (output_folder base_name : string) : list Event :=
  Print Processing60 ::
  if String.eqb (aspect args) "original" then
    [SegmentMux (path_join env output_folder (base_name ++ "_%03d.mp4"));
     Print (if mux_ok env then SegmentsCreated60 else SegmentSplitFailed)]
  else
    let (evs, duration) := get_video_duration env (input_video args) in
    match duration with
    | None => evs
    | Some d =>
        if Qeq_bool d 0 then evs
        else
          let (evs', done) :=
            fixed_loop env
              (fixed_jobs env output_folder base_name (aspect args) d) in
          (evs ++ evs'
             ++ (if done then [Print (Created60 (segment_count d))] else []))
    end%list.

(** The custom branch of [main]. *)
Definition main_custom (env : Env) (args : Args)
    (output_folder base_name : string) : list Event :=
  match split_times args with
  | None | Some [] => [Print CustomRequiresSplitTimes]
  | Some ts =>
      match parse_all ts with
      | inl bad => [Print (InvalidTimeFormat bad)]
      | inr split_points =>
          let (evs, duration) := get_video_duration env (input_video args) in
          match duration with
          | None => evs
          | Some d =>
              if Qeq_bool d 0 then evs
              else
                match custom_segments split_points d with
                | [] => (evs ++ [Print NoValidSegments])
                | segments =>
                    (evs ++ Print (CreatingCustom (List.length segments))
                       :: custom_loop env output_folder base_name
                            (aspect args) 1 segments)
                end
          end
      end
  end%list.

Definition main (env : Env) (args : Args) : list Event :=
  if negb (ffmpeg_present env) then [Print FFmpegNotFound; Exit 1]
  else if negb (is_file env (input_video args))
  then [Print (InputFileNotFound (input_video args))]
  else
    let base_name := base_name_of env (input_video args) in
    let output_folder := path_join env (output_dir args) base_name in
    MakeDirs output_folder ::
    if String.eqb (split_option args) "60"
    then main_fixed env args output_folder base_name
    else main_custom env args output_folder base_name.

End Portrait.

(** ** Yt_Split_FullScreen.py *)

Module FullScreen.

Record Args : Type := mkArgs {
  input : string;
  split_option : string;
  split_times : option (list string);
  output_dir : string;
  aspect_mode : string;
  aspect_handling : string;
  background : option string;
  text : option string;
  text_size : Z;
  text_color : option string;
  font : option string
}.

Definition get_video_duration (env : Env) (input_path : string)
  : list Event * option Q :=
  match probe env input_path with
  | Some d => ([], Some d)
  | None => ([Print ErrorGettingDuration], None)
  end.

Definition target_width (args : Args) : Z :=
  if String.eqb (aspect_mode args) "portrait" then 1080 else 1920.

Definition target_height (args : Args) : Z :=
  if String.eqb (aspect_mode args) "portrait" then 1920 else 1080.

(** The stages of the aspect conversion; [None] is the early
    [return None] of the last branch. *)
Definition aspect_stages (args : Args) : option (list string) :=
  let w := str_of_Z (target_width args) in
  let h := str_of_Z (target_height args) in
  if String.eqb (aspect_handling args) "crop" then
    Some ["scale=" ++ w ++ ":" ++ h ++ ":force_original_aspect_ratio=increase";
          "crop=" ++ w ++ ":" ++ h]
  else if String.eqb (aspect_handling args) "pad" then
    let bg_color :=
      match truthy (background args) with
      | Some b => b
      | None => "black"
      end in
    Some ["scale=" ++ w ++ ":" ++ h ++ ":force_original_aspect_ratio=decrease";
          "pad=" ++ w ++ ":" ++ h ++ ":(ow-iw)/2:(oh-ih)/2:color=" ++ bg_color]
  else if String.eqb (aspect_handling args) "stretch" then
    Some ["scale=" ++ w ++ ":" ++ h]
  else None.

(** The stage of the text overlay: none unless [args.text] is a
    non-empty string. *)
Definition text_stages (args : Args) : list string :=
  match truthy (text args) with
  | None => []
  | Some t =>
      let text_color :=
        match truthy (text_color args) with
        | Some c => c
        | None =>
            match background args with
            | Some b => if String.eqb b "black" then "white" else "black"
            | None => "black"
            end
        end in
      let font :=
        match truthy (font args) with
        | Some f => ":fontfile='" ++ f ++ "'"
        | None => ""
        end in
      ["drawtext=text='" ++ t ++ "'" ++ font ++ ":"
       ++ "fontcolor=" ++ text_color ++ ":fontsize="
       ++ str_of_Z (text_size args) ++ ":"
       ++ "x=(w-text_w)/2:y=(h-text_h)/2"]
  end.

(** The list [filters] at the end of [build_filters]. *)
Definition filter_stages (args : Args) : option (list string) :=
  match aspect_stages args with
  | None => None
  | Some filters => Some (filters ++ text_stages args)%list
  end.

Definition build_filters (args : Args) : option string :=
  option_map (PyStr.join ",") (filter_stages args).

(** The encoder call [process_segment] makes. *)
Definition segment_job (args : Args) (output_path : string)
    (start duration : Q) : SegmentJob :=
  mkJob start duration output_path (truthy (build_filters args)).

(** [process_segment]: the call, and the error line on failure. *)
Definition process_segment (env : Env) (j : SegmentJob)
  : list Event * bool :=
  if encode_ok env j then ([Encode j], true)
  else ([Encode j; Print ErrorProcessingSegment], false).

(** [min(60, x)]: [x] when [x < 60], else 60. *)
Definition min60 (x : Q) : Q := if Qltb x 60 then x else 60.

(** Start and length of iteration [i] of the 60-second loop. *)
Definition fixed_segment (duration : Q) (i : nat) : Q * Q :=
  let start := inject_Z (Z.of_nat i * 60) in
  (start, min60 (duration - start)).

(** The segments the 60-second loop goes through. *)
Definition fixed_plan (duration : Q) : list (Q * Q) :=
  map (fixed_segment duration) (range (segment_count duration)).

(** The job of iteration [i] of the 60-second loop. *)
Definition fixed_job (env : Env) (args : Args)
    (output_folder base_name : string) (duration : Q) (i : nat)
  : SegmentJob :=
  let seg := fixed_segment duration i in
  segment_job args
    (path_join env output_folder (base_name ++ "_" ++ pad3 (i + 1) ++ ".mp4"))
    (fst seg) (snd seg).

(** The jobs of the 60-second loop, in order. *)
Definition fixed_jobs (env : Env) (args : Args)
    (output_folder base_name : string) (duration : Q) : list SegmentJob :=
  map (fixed_job env args output_folder base_name duration)
      (range (segment_count duration)).

(** One iteration of the loop; the result of [process_segment] is not
    looked at. *)
Definition fixed_step (env : Env) (args : Args)
    (output_folder base_name : string) (duration : Q) (i : nat)
  : list Event :=
  Print (ProcessingSegmentOf (Z.of_nat i + 1) (segment_count duration)) ::
  fst (process_segment env
         (fixed_job env args output_folder base_name duration i)).

Definition main (env : Env) (args : Args) : list Event :=
  if negb (ffmpeg_present env && ffprobe_present env)
  then [Print BinariesNotFound; Exit 1]
  else if negb (is_file env (input args))
  then [Print (InputFileNotFound (input args))]
  else
    let base_name := base_name_of env (input args) in
    let output_folder := path_join env (output_dir args) base_name in
    MakeDirs output_folder :: Print (OutputDirectory output_folder) ::
    if String.eqb (split_option args) "60" then
      Print Processing60 ::
      let (evs, duration) := get_video_duration env (input args) in
      match duration with
      | None => evs
      | Some d =>
          (evs
             ++ flat_map (fixed_step env args output_folder base_name d)
                  (range (segment_count d))
             ++ [Print ProcessingCompleted])%list
      end
    else [].

End FullScreen.

(** ** Vocabulary of the properties *)

(** What a stage of a filter graph does, read off its name. *)
Inductive StageKind : Type :=
| ScaleStage
| CropOrPadStage
| TextStage
| OtherStage.

Fixpoint starts_with (p s : string) : bool :=
  match p with
  | EmptyString => true
  | String a p' =>
      match s with
      | EmptyString => false
      | String b s' => Ascii.eqb a b && starts_with p' s'
      end
  end.

Definition stage_kind (stage : string) : StageKind :=
  if starts_with "scale=" stage then ScaleStage
  else if starts_with "crop=" stage || starts_with "pad=" stage
  then CropOrPadStage
  else if starts_with "drawtext=" stage then TextStage
  else OtherStage.

(** Start and length of an encoder call. *)
Definition job_span (j : SegmentJob) : Q * Q := (job_start j, job_length j).

(** The sum of the lengths of a list of (start, length) segments. *)
Definition total_length (segs : list (Q * Q)) : Q :=
  fold_right (fun s acc => snd s + acc) 0 segs.

(** [tiles a b segs]: the first segment starts at [a], each next one starts
    where the one before it ends, and the last one ends at [b]. *)
Fixpoint tiles (a b : Q) (segs : list (Q * Q)) : Prop :=
  match segs with
  | [] => a == b
  | s :: segs' => fst s == a /\ tiles (fst s + snd s) b segs'
  end.

(** Every pair of adjacent points, as (start, length). *)
Fixpoint all_gaps (pts : list Q) : list (Q * Q) :=
  match pts with
  | [] => []
  | start :: rest =>
      match rest with
      | [] => []
      | end_ :: _ => (start, end_ - start) :: all_gaps rest
      end
  end.

(** [s] ends before, or where, [s'] starts. *)
Definition ends_before (s s' : Q * Q) : Prop := fst s + snd s <= fst s'.

(** A gap whose length, as the float subtraction gives it, is greater than
    the float [0.1]: the test of the custom mode. *)
Definition long_enough (g : Q * Q) : bool :=
  Qltb Float64.tenth (Float64.round_q (snd g)).

(** A gap with its length as the float subtraction gives it. *)
Definition as_computed (g : Q * Q) : Q * Q :=
  (fst g, Float64.round_q (snd g)).

(** [q] is the value of a double. *)
Definition is_double (q : Q) : Prop := Float64.round_q q = q.

(** The calls a runner makes that stops at the first call that fails. *)
Fixpoint until_failure (ok : SegmentJob -> bool) (jobs : list SegmentJob)
  : list SegmentJob :=
  match jobs with
  | [] => []
  | j :: jobs' => j :: (if ok j then until_failure ok jobs' else [])
  end.

(** The same outside world, with another answer of the prober. *)
Definition set_probe (env : Env) (r : option Q) : Env :=
  mkEnv (ffmpeg_present env) (ffprobe_present env) (is_file env)
        (base_name_of env) (path_join env) (fun _ => r)
        (mux_ok env) (encode_ok env).

(** The events other than the line [get_video_duration] prints when the
    prober gave no number. *)
Definition without_probe_error (evs : list Event) : list Event :=
  filter (fun e => match e with
                   | Print ErrorGettingDuration => false
                   | _ => true
                   end) evs.

(** Sample inputs: a world where the binaries and the input file exist,
    the prober answers [d] and the encoder succeeds on the jobs [ok]
    accepts; and command lines for the file [in.mp4]. *)
Definition sample_env (d : option Q) (ok : SegmentJob -> bool) : Env :=
  mkEnv true true (fun _ => true) (fun _ => "in")
        (fun a b => a ++ "/" ++ b) (fun _ => d) true ok.

Definition portrait_args (split_option : string)
    (split_times : option (list string)) (aspect : string) : Portrait.Args :=
  Portrait.mkArgs "in.mp4" "output" split_option split_times aspect.

Definition fullscreen_args (split_option aspect_handling : string)
    (text : option string) : FullScreen.Args :=
  FullScreen.mkArgs "in.mp4" split_option None "output" "portrait"
    aspect_handling (Some "black") text 48 None None.

(** The messages that report that the work was done. *)
Definition is_success (m : Message) : bool :=
  match m with
  | SegmentsCreated60 | Created60 _ | AllSegmentsCreated
  | ProcessingCompleted => true
  | _ => false
  end.

(** Whether a run prints a line reporting that the work was done. *)
Definition reports_success (evs : list Event) : bool :=
  existsb (fun e => match e with
                    | Print m => is_success m
                    | _ => false
                    end) evs.

(** * Properties *)

(** ** The float and string layer on examples *)

Example float_90 : PyStr.float "90" = Some (Fin 90).
Proof. reflexivity. Qed.
Example float_dec :
  PyStr.float " -30.05 "
  = Some (Fin (-(8458323050155213 # 281474976710656))).
Proof. vm_compute. reflexivity. Qed.
Example float_exp :
  PyStr.float "1_0.5e-1" = Some (Fin (4728779608739021 # 4503599627370496)).
Proof. vm_compute. reflexivity. Qed.
Example float_tenth : PyStr.float "0.1" = Some (Fin Float64.tenth).
Proof. vm_compute. reflexivity. Qed.
Example float_beyond_2_53 :
  PyStr.float "9007199254740993" = Some (Fin 9007199254740992).
Proof. vm_compute. reflexivity. Qed.
Example float_overflow : PyStr.float "1e400" = Some PInf.
Proof. vm_compute. reflexivity. Qed.
Example float_underflow : PyStr.float "1e-400" = Some (Fin 0).
Proof. vm_compute. reflexivity. Qed.
Example sub_rounds :
  Float64.sub 100 (5404319552844595 # 18014398509481984)
  = 7015763794513101 # 70368744177664.
Proof. vm_compute. reflexivity. Qed.

(** The custom loop on doubles: the cut times 30 and 30.1 are a little
    more than the float [0.1] apart and give three segments; a video as
    long as the float [0.1] gives none; with the cut time 0.3 on 100
    seconds the start and the length of the second segment add up to more
    than 100. *)
Example segments_30_30_1 :
  option_map (fun p => Portrait.custom_segments [Fin 30; p] 100)
             (Portrait.parse_time "30.1")
  = Some [(0, 30);
          (30, 14073748835533 # 140737488355328);
          (4236198399495373 # 140737488355328,
           2459387609009357 # 35184372088832)].
Proof. vm_compute. reflexivity. Qed.
Example segments_of_a_tenth :
  Portrait.custom_segments [] Float64.tenth = [].
Proof. vm_compute. reflexivity. Qed.
Example segments_0_3 :
  option_map (fun p => Portrait.custom_segments [p] 100)
             (Portrait.parse_time "0.3")
  = Some [(0, 5404319552844595 # 18014398509481984);
          (5404319552844595 # 18014398509481984,
           7015763794513101 # 70368744177664)]
  /\ 100 < (5404319552844595 # 18014398509481984)
            + (7015763794513101 # 70368744177664).
Proof. split; vm_compute; reflexivity. Qed.
Example float_bad1 : PyStr.float "1e" = None.
Proof. reflexivity. Qed.
Example float_bad2 : PyStr.float "." = None.
Proof. reflexivity. Qed.
Example float_bad3 : PyStr.float "" = None.
Proof. reflexivity. Qed.
Example float_bad4 : PyStr.float "1__0" = None.
Proof. reflexivity. Qed.
Example float_inf : PyStr.float "-Infinity" = Some NInf.
Proof. reflexivity. Qed.
Example float_nan : PyStr.float "NaN" = Some NaN.
Proof. reflexivity. Qed.
Example split_ex : PyStr.split ":" "1:2::4" = ["1"; "2"; ""; "4"].
Proof. reflexivity. Qed.

Example pad3_7 : pad3 7 = "007".
Proof. reflexivity. Qed.

(** ** Rounding *)

Section Rounding.

Import Float64.

(** Rounding depends on the value only, not on the fraction that writes
    it. *)
Lemma round_q_compat (q q' : Q) : q == q' -> round_q q = round_q q'.
Proof.
  intro H. unfold round_q. now rewrite (Qred_complete _ _ H).
Qed.

Lemma round_q_zero (q : Q) : q == 0 -> round_q q = 0.
Proof.
  intro H. now rewrite (round_q_compat _ _ H).
Qed.

Lemma round_compat (q q' : Q) : q == q' -> round q = round q'.
Proof.
  intro H. unfold round. now rewrite (round_q_compat _ _ H).
Qed.

Lemma round_half_even_exact (n d : Z) :
  (0 < d)%Z -> round_half_even (n * d) d = n.
Proof.
  intro Hd. unfold round_half_even.
  rewrite Z.mod_mul, Z.div_mul by lia.
  change (2 * 0)%Z with 0%Z.
  now rewrite (proj2 (Z.compare_lt_iff 0 d) Hd).
Qed.

Lemma Qred_integer (z : Z) : Qred (inject_Z z) = inject_Z z.
Proof.
  unfold Qred, inject_Z.
  pose proof (Z.ggcd_gcd z 1) as Hg.
  pose proof (Z.ggcd_correct_divisors z 1) as Hd.
  destruct (Z.ggcd z 1) as [g [aa bb]]. simpl in Hg.
  rewrite Z.gcd_1_r in Hg. subst g. destruct Hd as [Ha Hb].
  rewrite Z.mul_1_l in Ha, Hb. now subst.
Qed.

(** A positive whole number up to [2^53] is a double. *)
Lemma round_abs_integer (n : Z) :
  (0 < n <= 2 ^ 53)%Z -> round_abs n 1 = inject_Z n.
Proof.
  intros [Hpos Hle].
  assert (Hk := Z.log2_spec n Hpos).
  assert (Hk0 := Z.log2_nonneg n).
  assert (Hk53 : (Z.log2 n <= 53)%Z).
  { rewrite <- (Z.log2_pow2 53) by lia. now apply Z.log2_le_mono. }
  assert (Hi : ilog2 n 1 = Z.log2 n).
  { unfold ilog2. change (Z.log2 1) with 0%Z. rewrite Z.sub_0_r.
    rewrite (proj2 (Z.leb_le 0 _) Hk0).
    rewrite (proj2 (Z.ltb_ge n _)) by lia. reflexivity. }
  unfold round_abs. rewrite Hi.
  rewrite Z.max_l by lia.
  destruct (Z.leb_spec 0 (Z.log2 n - 52)) as [He | He].
  - assert (E : (n = n / 2 ^ (Z.log2 n - 52) * (1 * 2 ^ (Z.log2 n - 52)))%Z).
    { assert (Hc : (Z.log2 n = 52 \/ Z.log2 n = 53)%Z) by lia.
      destruct Hc as [Hc | Hc]; rewrite Hc in *.
      - change (2 ^ (52 - 52))%Z with 1%Z. rewrite Z.div_1_r. lia.
      - assert (n = 2 ^ 53)%Z by lia. subst n. reflexivity. }
    rewrite E at 1. rewrite round_half_even_exact by lia.
    f_equal. lia.
  - set (c := (2 ^ (- (Z.log2 n - 52)))%Z).
    assert (Hc : (0 < c)%Z) by (apply Z.pow_pos_nonneg; lia).
    replace (n * c)%Z with (n * c * 1)%Z at 1 by lia.
    rewrite round_half_even_exact by lia.
    rewrite <- Qred_integer. apply Qred_complete.
    unfold Qeq, inject_Z. simpl. rewrite Z2Pos.id by assumption. lia.
Qed.

Lemma round_q_integer (z : Z) :
  (Z.abs z <= 2 ^ 53)%Z -> round_q (inject_Z z) = inject_Z z.
Proof.
  intro Hz. unfold round_q. rewrite Qred_integer.
  destruct z as [|p|p]; [reflexivity | |]; unfold inject_Z; cbn [Qnum Qden].
  - apply (round_abs_integer (Zpos p)). lia.
  - rewrite (round_abs_integer (Zpos p)) by lia. reflexivity.
Qed.

(** [float(n)] for a whole number with [|n| <= 2^53] is [n]. *)
Lemma round_integer (q : Q) (z : Z) :
  q == inject_Z z -> (Z.abs z <= 2 ^ 53)%Z -> round q = Fin (inject_Z z).
Proof.
  intros Hq Hz. rewrite (round_compat _ _ Hq). unfold round.
  rewrite (round_q_integer z Hz).
  assert (Hb : (2 ^ 53 < 2 ^ 1024)%Z) by reflexivity.
  assert (H1 : ~ inject_Z (2 ^ 1024) <= inject_Z z).
  { rewrite <- Zle_Qle. lia. }
  assert (H2 : ~ inject_Z z <= - inject_Z (2 ^ 1024)).
  { change (- inject_Z (2 ^ 1024)) with (inject_Z (- 2 ^ 1024)).
    rewrite <- Zle_Qle. lia. }
  rewrite <- Qle_bool_iff in H1, H2.
  apply not_true_is_false in H1, H2. now rewrite H1, H2.
Qed.

(** The float [0.1] is a little more than a tenth. *)
Lemma tenth_above : 1 # 10 < tenth.
Proof. reflexivity. Qed.

Lemma tenth_is_rounded : round_q (1 # 10) = tenth.
Proof. vm_compute. reflexivity. Qed.

End Rounding.

(** ** Comparisons on finite values *)

Lemma Qltb_lt (a b : Q) : Qltb a b = true <-> a < b.
Proof.
  unfold Qltb. rewrite negb_true_iff. split; intro H.
  - apply Qnot_le_lt. intro Hle. apply Qle_bool_iff in Hle. congruence.
  - destruct (Qle_bool b a) eqn:E; [|reflexivity].
    apply Qle_bool_iff in E. exfalso. exact (Qlt_not_le _ _ H E).
Qed.

Lemma Qltb_ge (a b : Q) : Qltb a b = false <-> b <= a.
Proof.
  unfold Qltb. rewrite negb_false_iff. apply Qle_bool_iff.
Qed.

(** ** [parse_time] *)

Section ParseTime.

Import Portrait.

Lemma floats_None_iff (l : list string) :
  floats l = None <-> exists f, In f l /\ PyStr.float f = None.
Proof.
  induction l as [|f l IH]; simpl.
  - split; [discriminate | intros (f & [] & _)].
  - destruct (PyStr.float f) as [x|] eqn:Ef.
    + destruct (floats l) as [xs|] eqn:El; simpl.
      * split; [discriminate|].
        intros (g & [<- | Hin] & Hg); [congruence|].
        assert (Some xs = None) by (apply IH; eauto). discriminate.
      * split; [intros _|reflexivity].
        destruct (proj1 IH eq_refl) as (g & Hin & Hg). eauto.
    + split; [intros _; eauto | reflexivity].
Qed.

Lemma floats_length (l : list string) (xs : list pyfloat) :
  floats l = Some xs -> List.length xs = List.length l.
Proof.
  revert xs. induction l as [|f l IH]; simpl; intros xs H.
  - injection H as <-. reflexivity.
  - destruct (PyStr.float f); [|discriminate].
    destruct (floats l) as [ys|]; [|discriminate].
    injection H as <-. simpl. f_equal. auto.
Qed.

Lemma split_chars_absent (c : ascii) (l cur : list ascii) :
  existsb (Ascii.eqb c) l = false ->
  PyStr.split_chars c cur l = [(rev cur ++ l)%list].
Proof.
  revert cur. induction l as [|x l IH]; simpl; intros cur H.
  - now rewrite app_nil_r.
  - apply orb_false_iff in H as [Hx Hl].
    rewrite Ascii.eqb_sym, Hx, IH by assumption.
    simpl. now rewrite <- app_assoc.
Qed.

Lemma split_chars_nonempty (c : ascii) (l cur : list ascii) :
  (1 <= List.length (PyStr.split_chars c cur l))%nat.
Proof.
  revert cur. induction l as [|x l IH]; simpl; intros cur; [lia|].
  destruct (Ascii.eqb x c); simpl; [lia | apply IH].
Qed.

Lemma split_chars_present (c : ascii) (l cur : list ascii) :
  existsb (Ascii.eqb c) l = true ->
  (2 <= List.length (PyStr.split_chars c cur l))%nat.
Proof.
  revert cur. induction l as [|x l IH]; simpl; intros cur H; [discriminate|].
  rewrite Ascii.eqb_sym in H.
  destruct (Ascii.eqb x c); simpl.
  - pose proof (split_chars_nonempty c l []). lia.
  - apply IH, H.
Qed.

(** A string without the separator is its own single field. *)
Lemma split_absent (c : ascii) (s : string) :
  PyStr.contains c s = false -> PyStr.split c s = [s].
Proof.
  unfold PyStr.contains, PyStr.split. intro H.
  rewrite split_chars_absent by assumption. simpl.
  unfold PyStr.of_chars, PyStr.chars.
  now rewrite string_of_list_ascii_of_string.
Qed.

(** A string with the separator has at least two fields. *)
Lemma split_present (c : ascii) (s : string) :
  PyStr.contains c s = true -> (2 <= List.length (PyStr.split c s))%nat.
Proof.
  unfold PyStr.contains, PyStr.split. intro H.
  rewrite length_map. now apply split_chars_present.
Qed.

(** When [parse_time] fails: exactly on more than three fields, or on a
    field that [float] rejects. *)
Lemma parse_time_None_iff (s : string) :
  parse_time s = None <->
  (3 < List.length (PyStr.split ":" s))%nat
  \/ exists f, In f (PyStr.split ":" s) /\ PyStr.float f = None.
Proof.
  unfold parse_time.
  destruct (PyStr.contains ":" s) eqn:Hc.
  - pose proof (split_present _ _ Hc) as Hlen.
    destruct (floats (PyStr.split ":" s)) as [xs|] eqn:Hf.
    + pose proof (floats_length _ _ Hf) as Hl.
      assert (Hno : ~ exists f, In f (PyStr.split ":" s)
                                /\ PyStr.float f = None).
      { intro H. apply floats_None_iff in H. congruence. }
      destruct xs as [|a [|b [|c [|d xs]]]]; simpl in Hl;
        try (exfalso; lia).
      * split; [discriminate | intros [H|H]; [lia | contradiction]].
      * split; [discriminate | intros [H|H]; [lia | contradiction]].
      * split; [intros _; left; lia | reflexivity].
    + split; [intros _; right; now apply floats_None_iff | reflexivity].
  - rewrite (split_absent _ _ Hc). simpl. split.
    + intro H. right. exists s. auto.
    + intros [H | (f & [<- | []] & Hf)]; [lia | exact Hf].
Qed.

End ParseTime.

(** C3.  [parse_time] reads ["90"] as 90 seconds, ["01:30"] as 90 seconds
    and ["01:00:00"] as 3600 seconds; a string with more than three
    colon-separated fields (such as ["1:2:3:4"]), or with a field that is
    not a number for [float], gives no value. *)
Theorem parse_time_spec (s : string)
    (Hbad : (3 < List.length (PyStr.split ":" s))%nat
            \/ exists f, In f (PyStr.split ":" s) /\ PyStr.float f = None) :
  Portrait.parse_time s = None
  /\ Portrait.parse_time "90" = Some (Fin 90)
  /\ Portrait.parse_time "01:30" = Some (Fin 90)
  /\ Portrait.parse_time "01:00:00" = Some (Fin 3600).
Proof.
  split; [now apply parse_time_None_iff|].
  repeat split; reflexivity.
Qed.

Lemma parse_time_spec_witness :
  Portrait.parse_time "1:2:3:4" = None
  /\ Portrait.parse_time "90" = Some (Fin 90)
  /\ Portrait.parse_time "01:30" = Some (Fin 90)
  /\ Portrait.parse_time "01:00:00" = Some (Fin 3600).
Proof.
  apply (parse_time_spec "1:2:3:4"). left. simpl. lia.
Defined.

(** ** [build_filters] *)

Section BuildFilters.

Import FullScreen.

Lemma truthy_Some (t : string) : t <> "" -> truthy (Some t) = Some t.
Proof.
  intro H. unfold truthy. destruct (String.eqb_spec t ""); congruence.
Qed.

(** The kinds of the stages, in order, for each way of handling the
    aspect: one of four shapes, the text stage always last. *)
Lemma filter_stages_order (args : Args) (stages : list string) :
  filter_stages args = Some stages ->
  exists a, aspect_stages args = Some a
    /\ stages = (a ++ text_stages args)%list
    /\ (map stage_kind a = [ScaleStage; CropOrPadStage]
        \/ map stage_kind a = [ScaleStage])
    /\ (map stage_kind (text_stages args) = [TextStage]
        \/ text_stages args = []).
Proof.
  unfold filter_stages.
  destruct (aspect_stages args) as [a|] eqn:Ha; [|discriminate].
  intro H. injection H as <-. exists a. repeat split.
  - unfold aspect_stages in Ha.
    destruct (String.eqb (aspect_handling args) "crop");
      [injection Ha as <-; left; reflexivity|].
    destruct (String.eqb (aspect_handling args) "pad");
      [injection Ha as <-; left; reflexivity|].
    destruct (String.eqb (aspect_handling args) "stretch");
      [injection Ha as <-; right; reflexivity | discriminate].
  - unfold text_stages. destruct (truthy (text args)); [left | right];
      reflexivity.
Qed.

End BuildFilters.

(** C5.  With aspect handling [original], [build_filters] produces no
    filter graph (so [process_segment] copies the video stream).  With
    handling [pad], aspect mode [portrait], background [black] and no text,
    the graph is exactly the two stages scale and pad for 1080x1920; with a
    text, exactly one [drawtext] stage is added, after the pad stage.  In
    every graph the order is scale, then crop or pad, then text. *)
Theorem build_filters_spec (args : FullScreen.Args) :
  (FullScreen.aspect_handling args = "original" ->
     FullScreen.build_filters args = None)
  /\ (FullScreen.aspect_handling args = "pad" ->
      FullScreen.aspect_mode args = "portrait" ->
      FullScreen.background args = Some "black" ->
      let scale := "scale=1080:1920:force_original_aspect_ratio=decrease" in
      let pad := "pad=1080:1920:(ow-iw)/2:(oh-ih)/2:color=black" in
      (truthy (FullScreen.text args) = None ->
         FullScreen.filter_stages args = Some [scale; pad]
         /\ FullScreen.build_filters args = Some (scale ++ "," ++ pad))
      /\ (forall t, truthy (FullScreen.text args) = Some t ->
          exists d,
            FullScreen.filter_stages args = Some [scale; pad; d]
            /\ stage_kind d = TextStage
            /\ FullScreen.build_filters args
               = Some (scale ++ "," ++ pad ++ "," ++ d)))
  /\ (forall stages, FullScreen.filter_stages args = Some stages ->
      In (map stage_kind stages)
         [[ScaleStage; CropOrPadStage];
          [ScaleStage];
          [ScaleStage; CropOrPadStage; TextStage];
          [ScaleStage; TextStage]]).
Proof.
  split; [|split].
  - intro H. unfold FullScreen.build_filters, FullScreen.filter_stages,
      FullScreen.aspect_stages. rewrite H. reflexivity.
  - intros Hpad Hmode Hbg scale pad.
    assert (Ha : FullScreen.aspect_stages args = Some [scale; pad]).
    { unfold FullScreen.aspect_stages, FullScreen.target_width,
        FullScreen.target_height. rewrite Hpad, Hmode, Hbg. reflexivity. }
    split.
    + intro Ht. unfold FullScreen.build_filters, FullScreen.filter_stages,
        FullScreen.text_stages. rewrite Ha, Ht. split; reflexivity.
    + intros t Ht. unfold FullScreen.build_filters, FullScreen.filter_stages,
        FullScreen.text_stages. rewrite Ha, Ht.
      eexists. repeat split.
  - intros stages H.
    destruct (filter_stages_order args stages H)
      as (a & _ & -> & Hk & Ht).
    rewrite map_app.
    destruct Hk as [-> | ->], Ht as [-> | ->]; simpl; auto.
Qed.

Lemma build_filters_spec_witness :
  FullScreen.build_filters
    (FullScreen.mkArgs "in.mp4" "60" None "output" "portrait" "original"
       (Some "black") (Some "Hi") 48 None None) = None
  /\ FullScreen.build_filters
       (FullScreen.mkArgs "in.mp4" "60" None "output" "portrait" "pad"
          (Some "black") None 48 None None)
     = Some ("scale=1080:1920:force_original_aspect_ratio=decrease"
             ++ "," ++ "pad=1080:1920:(ow-iw)/2:(oh-ih)/2:color=black")
  /\ exists d,
      FullScreen.filter_stages
        (FullScreen.mkArgs "in.mp4" "60" None "output" "portrait" "pad"
           (Some "black") (Some "Hi") 48 None None)
      = Some ["scale=1080:1920:force_original_aspect_ratio=decrease";
              "pad=1080:1920:(ow-iw)/2:(oh-ih)/2:color=black"; d]
      /\ stage_kind d = TextStage.
Proof.
  split; [|split].
  - apply (proj1 (build_filters_spec _)). reflexivity.
  - apply (proj1 (proj2 (build_filters_spec _))); reflexivity.
  - destruct (proj2 (proj1 (proj2 (build_filters_spec
        (FullScreen.mkArgs "in.mp4" "60" None "output" "portrait" "pad"
           (Some "black") (Some "Hi") 48 None None)))
        eq_refl eq_refl eq_refl) "Hi" eq_refl) as (d & H1 & H2 & _).
    exists d. split; assumption.
Defined.

(** ** The custom branch of the FullScreen script *)

(** C9.  In the FullScreen script, with the binaries and the input file in
    place, the split option ["custom"] makes [main] create the output folder, print its name and end: no encoder
    call, no other command, no error message, no exit code. *)
Theorem FullScreen_custom_noop (env : Env) (args : FullScreen.Args)
    (Hbin : ffmpeg_present env && ffprobe_present env = true)
    (Hfile : is_file env (FullScreen.input args) = true)
    (Hcustom : FullScreen.split_option args = "custom") :
  let folder :=
    path_join env (FullScreen.output_dir args)
      (base_name_of env (FullScreen.input args)) in
  FullScreen.main env args = [MakeDirs folder; Print (OutputDirectory folder)]
  /\ encodes (FullScreen.main env args) = []
  /\ errors (FullScreen.main env args) = [].
Proof.
  unfold FullScreen.main. rewrite Hbin, Hfile, Hcustom. simpl.
  repeat split.
Qed.

Lemma FullScreen_custom_noop_witness :
  encodes
    (FullScreen.main
       (mkEnv true true (fun _ => true) (fun _ => "in")
          (fun a b => a ++ "/" ++ b) (fun _ => Some 125) true (fun _ => true))
       (FullScreen.mkArgs "in.mp4" "custom" (Some ["30"]) "output" "portrait"
          "pad" (Some "black") None 48 None None)) = [].
Proof.
  apply (FullScreen_custom_noop
           (mkEnv true true (fun _ => true) (fun _ => "in")
              (fun a b => a ++ "/" ++ b) (fun _ => Some 125) true
              (fun _ => true))
           (FullScreen.mkArgs "in.mp4" "custom" (Some ["30"]) "output"
              "portrait" "pad" (Some "black") None 48 None None));
    reflexivity.
Defined.

(** ** The 60-second plan *)

Section FixedPlan.

Lemma Qfloor_unique (x : Q) (z : Z) :
  inject_Z z <= x -> x < inject_Z (z + 1) -> Qfloor x = z.
Proof.
  intros Hlo Hhi.
  pose proof (Qfloor_le x) as H1. pose proof (Qlt_floor x) as H2.
  assert (Ha : inject_Z (Qfloor x) < inject_Z (z + 1))
    by (eapply Qle_lt_trans; eassumption).
  assert (Hb : inject_Z z < inject_Z (Qfloor x + 1))
    by (eapply Qle_lt_trans; eassumption).
  rewrite <- Zlt_Qlt in Ha, Hb. lia.
Qed.

Lemma Qceiling_unique (x : Q) (z : Z) :
  inject_Z (z - 1) < x -> x <= inject_Z z -> Qceiling x = z.
Proof.
  intros Hlo Hhi.
  pose proof (Qle_ceiling x) as H1. pose proof (Qceiling_lt x) as H2.
  assert (Ha : inject_Z (z - 1) < inject_Z (Qceiling x))
    by (eapply Qlt_le_trans; eassumption).
  assert (Hb : inject_Z (Qceiling x - 1) < inject_Z z)
    by (eapply Qlt_le_trans; eassumption).
  rewrite <- Zlt_Qlt in Ha, Hb. lia.
Qed.

Lemma inject_Z_succ (z : Z) : inject_Z (z + 1) == inject_Z z + 1.
Proof. rewrite inject_Z_plus. reflexivity. Qed.

Lemma inject_Z_pred (z : Z) : inject_Z (z - 1) == inject_Z z - 1.
Proof.
  unfold Z.sub. rewrite inject_Z_plus. reflexivity.
Qed.

(** The floor division brackets the duration. *)
Lemma floordiv60_bounds (d : Q) :
  60 * inject_Z (floordiv60 d) <= d
  /\ d < 60 * inject_Z (floordiv60 d) + 60.
Proof.
  unfold floordiv60.
  pose proof (Qfloor_le (d / 60)) as H1.
  pose proof (Qlt_floor (d / 60)) as H2.
  rewrite inject_Z_succ in H2.
  assert (E : d == 60 * (d / 60)) by (field).
  split; lra.
Qed.

(** The remainder is in [0, 60). *)
Lemma mod60_bounds (d : Q) : 0 <= mod60 d /\ mod60 d < 60.
Proof.
  unfold mod60. pose proof (floordiv60_bounds d). lra.
Qed.

(** The number of iterations is the ceiling of a sixtieth of the
    duration. *)
Lemma segment_count_ceiling (d : Q) : segment_count d = Qceiling (d / 60).
Proof.
  symmetry. unfold segment_count.
  pose proof (floordiv60_bounds d) as [Hlo Hhi].
  assert (E : d == 60 * (d / 60)) by (field).
  destruct (Qltb 0 (mod60 d)) eqn:Hm.
  - apply Qltb_lt in Hm. unfold mod60 in Hm.
    apply Qceiling_unique.
    + replace (floordiv60 d + 1 - 1)%Z with (floordiv60 d) by lia. lra.
    + rewrite inject_Z_succ. lra.
  - apply Qltb_ge in Hm. unfold mod60 in Hm.
    rewrite Z.add_0_r. apply Qceiling_unique.
    + rewrite inject_Z_pred. lra.
    + lra.
Qed.

(** With [n] iterations, [60 * (n - 1) < d <= 60 * n]. *)
Lemma segment_count_bounds (d : Q) :
  60 * inject_Z (segment_count d) - 60 < d
  /\ d <= 60 * inject_Z (segment_count d).
Proof.
  rewrite segment_count_ceiling.
  pose proof (Qle_ceiling (d / 60)) as H1.
  pose proof (Qceiling_lt (d / 60)) as H2.
  rewrite inject_Z_pred in H2.
  assert (E : d == 60 * (d / 60)) by (field).
  split; lra.
Qed.

Lemma segment_count_pos (d : Q) : 0 < d -> (0 < segment_count d)%Z.
Proof.
  intro Hd. pose proof (segment_count_bounds d) as [_ H].
  rewrite Zlt_Qlt. change (inject_Z 0) with 0. lra.
Qed.

Lemma start_of_iteration (i : nat) :
  inject_Z (Z.of_nat i * 60) == 60 * inject_Z (Z.of_nat i).
Proof. rewrite inject_Z_mult. ring. Qed.

Lemma start_of_next (i : nat) :
  inject_Z (Z.of_nat (S i) * 60) == inject_Z (Z.of_nat i * 60) + 60.
Proof.
  rewrite !start_of_iteration, Nat2Z.inj_succ.
  unfold Z.succ. rewrite inject_Z_plus. ring.
Qed.

Lemma tiles_compat (a a' b b' : Q) (segs : list (Q * Q)) :
  a == a' -> b == b' -> tiles a b segs -> tiles a' b' segs.
Proof.
  destruct segs as [|s segs]; simpl; intros Ha Hb H.
  - now rewrite <- Ha, <- Hb.
  - destruct H as [H1 H2]. split; [now rewrite <- Ha|].
    clear H1 Ha. revert H2. generalize (fst s + snd s). revert Hb.
    clear. induction segs as [|t segs IH]; simpl; intros Hb c H.
    + now rewrite <- Hb.
    + destruct H as [H1 H2]. split; [assumption|]. now apply IH.
Qed.

Lemma tiles_app (a b c : Q) (l1 l2 : list (Q * Q)) :
  tiles a b l1 -> tiles b c l2 -> tiles a c (l1 ++ l2).
Proof.
  revert a. induction l1 as [|s l1 IH]; simpl; intros a H1 H2.
  - eapply tiles_compat; [symmetry; exact H1 | reflexivity | exact H2].
  - destruct H1 as [Hs H1]. split; [assumption|]. now apply IH.
Qed.

(** Segments that tile an interval have its length in total. *)
Lemma tiles_total_length (a b : Q) (segs : list (Q * Q)) :
  tiles a b segs -> total_length segs == b - a.
Proof.
  revert a. induction segs as [|s segs IH]; simpl; intros a H.
  - lra.
  - destruct H as [Hs H]. rewrite (IH _ H). lra.
Qed.

(** Iterations [k .. k+m-1] of a loop whose lengths are all 60. *)
Lemma tiles_full (seg : nat -> Q * Q) (m k : nat) :
  (forall i, (k <= i < k + m)%nat ->
             fst (seg i) = inject_Z (Z.of_nat i * 60) /\ snd (seg i) == 60) ->
  tiles (inject_Z (Z.of_nat k * 60)) (inject_Z (Z.of_nat (k + m) * 60))
        (map seg (seq k m)).
Proof.
  revert k. induction m as [|m IH]; simpl; intros k H.
  - now rewrite Nat.add_0_r.
  - destruct (H k ltac:(lia)) as [Hf Hs]. split.
    + rewrite Hf. reflexivity.
    + eapply tiles_compat; [| |apply (IH (S k))].
      * rewrite Hf, Hs. apply start_of_next.
      * replace (S k + m)%nat with (k + S m)%nat by lia. reflexivity.
      * intros i Hi. apply H. lia.
Qed.

Lemma min60_full (x : Q) : 60 <= x -> FullScreen.min60 x = 60.
Proof.
  intro H. unfold FullScreen.min60.
  destruct (Qltb x 60) eqn:E; [|reflexivity].
  apply Qltb_lt in E. lra.
Qed.

Lemma min60_rest (x : Q) : x <= 60 -> FullScreen.min60 x == x.
Proof.
  intro H. unfold FullScreen.min60.
  destruct (Qltb x 60) eqn:E; [reflexivity|].
  apply Qltb_ge in E. lra.
Qed.

Lemma min60_min (x : Q) : FullScreen.min60 x == Qmin 60 x.
Proof.
  destruct (Qlt_le_dec x 60) as [H|H].
  - rewrite min60_rest, Q.min_r by lra. reflexivity.
  - rewrite min60_full, Q.min_l by lra. reflexivity.
Qed.

End FixedPlan.

Lemma nth_map_seq {A : Type} (f : nat -> A) (n i : nat) (d : A) :
  (i < n)%nat -> nth i (map f (seq 0 n)) d = f i.
Proof.
  intro Hi. rewrite (nth_indep _ d (f 0%nat))
    by (rewrite length_map, length_seq; exact Hi).
  rewrite map_nth, seq_nth by exact Hi. reflexivity.
Qed.

Section FixedPlanVariants.

Variable D : Q.
Hypothesis HD : 0 < D.

Let n : nat := Z.to_nat (segment_count D).

Lemma iterations_bounds :
  60 * inject_Z (Z.of_nat n) - 60 < D /\ D <= 60 * inject_Z (Z.of_nat n).
Proof.
  unfold n. rewrite Z2Nat.id.
  - apply segment_count_bounds.
  - pose proof (segment_count_pos D HD). lia.
Qed.

Lemma iterations_pos : (0 < n)%nat.
Proof.
  unfold n. pose proof (segment_count_pos D HD). lia.
Qed.

(** Before the last iteration a full minute is left. *)
Lemma full_minute_left (i : nat) :
  (S i < n)%nat -> 60 <= D - inject_Z (Z.of_nat i * 60).
Proof.
  intro Hi. pose proof iterations_bounds as [Hlo _].
  rewrite start_of_iteration.
  assert (H : inject_Z (Z.of_nat i) + 1 + 1 <= inject_Z (Z.of_nat n)).
  { rewrite <- !inject_Z_succ. rewrite <- Zle_Qle. lia. }
  lra.
Qed.

(** In the FullScreen script the segments of the loop tile [0, D]. *)
Lemma FullScreen_fixed_plan_tiles : tiles 0 D (FullScreen.fixed_plan D).
Proof.
  unfold FullScreen.fixed_plan, range. fold n.
  pose proof iterations_pos as Hn. pose proof iterations_bounds as [Hlo Hhi].
  destruct n as [|m] eqn:En; [lia|].
  rewrite seq_S, map_app. simpl.
  eapply tiles_app.
  - apply (tiles_full (FullScreen.fixed_segment D) m 0).
    intros i Hi. unfold FullScreen.fixed_segment. simpl. split; [reflexivity|].
    rewrite min60_full; [reflexivity|].
    apply full_minute_left. lia.
  - simpl. split; [reflexivity|].
    rewrite min60_rest.
    + ring.
    + rewrite start_of_iteration. rewrite Nat2Z.inj_succ in Hhi.
      unfold Z.succ in Hhi. rewrite inject_Z_plus in Hhi.
      change (inject_Z 1) with 1 in Hhi. lra.
Qed.

(** The FullScreen script on a duration [D > 0]: the loop has
    [ceil(D/60)] iterations, iteration [i] starts at [60 i] with length
    [min(60, D - 60 i)], and the segments tile [0, D], so that their
    lengths add up to [D]. *)
Lemma FullScreen_fixed_plan_exact :
  let plan := FullScreen.fixed_plan D in
  List.length plan = Z.to_nat (Qceiling (D / 60))
  /\ (forall i, (i < List.length plan)%nat ->
        fst (nth i plan (0, 0)) = inject_Z (Z.of_nat i * 60)
        /\ snd (nth i plan (0, 0))
           == Qmin 60 (D - inject_Z (Z.of_nat i * 60)))
  /\ tiles 0 D plan
  /\ total_length plan == D.
Proof.
  assert (Hlen : List.length (FullScreen.fixed_plan D) = n).
  { unfold FullScreen.fixed_plan, range. now rewrite length_map, length_seq. }
  cbv zeta. repeat split.
  - rewrite Hlen. unfold n. now rewrite segment_count_ceiling.
  - unfold FullScreen.fixed_plan, range in *.
    rewrite length_map, length_seq in H.
    rewrite nth_map_seq by exact H. reflexivity.
  - unfold FullScreen.fixed_plan, range in *.
    rewrite length_map, length_seq in H.
    rewrite nth_map_seq by exact H. simpl. apply min60_min.
  - apply FullScreen_fixed_plan_tiles.
  - rewrite (tiles_total_length 0 D) by apply FullScreen_fixed_plan_tiles.
    ring.
Qed.

(** When [D] is not a multiple of 60, the last segment of the FullScreen
    loop is the remainder. *)
Lemma FullScreen_last_is_remainder :
  0 < mod60 D ->
  snd (last (FullScreen.fixed_plan D) (0, 0)) == mod60 D.
Proof.
  intro Hm. unfold FullScreen.fixed_plan, range, segment_count.
  apply Qltb_lt in Hm. rewrite Hm.
  pose proof (floordiv60_bounds D) as [Hlo Hhi].
  assert (Hf : (0 <= floordiv60 D)%Z).
  { apply Z.lt_succ_r. rewrite Zlt_Qlt. unfold Z.succ.
    rewrite inject_Z_succ. change (inject_Z 0) with 0. lra. }
  rewrite Z2Nat.inj_add by lia. change (Z.to_nat 1) with 1%nat.
  rewrite Nat.add_1_r, seq_S, map_app. cbn [map].
  rewrite last_last. simpl.
  rewrite min60_rest.
  - unfold mod60. rewrite start_of_iteration, Z2Nat.id by lia. ring.
  - rewrite start_of_iteration, Z2Nat.id by lia. lra.
Qed.

Variables (env : Env) (folder base aspect : string).

Let spans : list (Q * Q) :=
  map job_span (Portrait.fixed_jobs env folder base aspect D).

Lemma Portrait_spans_map :
  spans = map (fun i => (inject_Z (Z.of_nat i * 60), 60)) (seq 0 n).
Proof.
  unfold spans, Portrait.fixed_jobs, range. fold n.
  rewrite map_map. reflexivity.
Qed.

(** In the Portrait script every job of the loop asks for 60 seconds:
    the jobs tile [0, 60 n], not [0, D]. *)
Lemma Portrait_fixed_jobs_padded :
  List.length spans = Z.to_nat (Qceiling (D / 60))
  /\ (forall i, (i < List.length spans)%nat ->
        nth i spans (0, 0) = (inject_Z (Z.of_nat i * 60), 60))
  /\ tiles 0 (60 * inject_Z (Qceiling (D / 60))) spans
  /\ total_length spans == 60 * inject_Z (Qceiling (D / 60)).
Proof.
  assert (Hc : inject_Z (Qceiling (D / 60)) = inject_Z (Z.of_nat n)).
  { unfold n. rewrite Z2Nat.id, segment_count_ceiling; [reflexivity|].
    pose proof (segment_count_pos D HD). lia. }
  assert (Ht : tiles 0 (60 * inject_Z (Qceiling (D / 60))) spans).
  { rewrite Portrait_spans_map, Hc.
    eapply tiles_compat;
      [| |apply (tiles_full
                   (fun i => (inject_Z (Z.of_nat i * 60), 60)) n 0)].
    - reflexivity.
    - simpl. apply start_of_iteration.
    - intros i _. split; reflexivity. }
  rewrite Portrait_spans_map in *. repeat split.
  - rewrite length_map, length_seq. unfold n.
    now rewrite segment_count_ceiling.
  - intros i Hi. rewrite length_map, length_seq in Hi.
    rewrite nth_map_seq by exact Hi. reflexivity.
  - exact Ht.
  - rewrite (tiles_total_length _ _ _ Ht). ring.
Qed.

End FixedPlanVariants.

(** ** The encoder calls of a run *)

Section Runs.

Variable env : Env.

Lemma encodes_app (a b : list Event) :
  encodes (a ++ b) = (encodes a ++ encodes b)%list.
Proof.
  induction a as [|e a IH]; simpl; [reflexivity|].
  destruct e; simpl; congruence.
Qed.

Lemma errors_app (a b : list Event) :
  errors (a ++ b) = (errors a ++ errors b)%list.
Proof.
  induction a as [|e a IH]; simpl; [reflexivity|].
  destruct e; simpl; try congruence.
  destruct (is_error m); simpl; congruence.
Qed.

Lemma Qeq_bool_false (d : Q) : ~ d == 0 -> Qeq_bool d 0 = false.
Proof.
  intro H. destruct (Qeq_bool d 0) eqn:E; [|reflexivity].
  apply Qeq_bool_iff in E. contradiction.
Qed.

(** The 60-second loop of the Portrait script stops at the first job
    that fails. *)
Lemma Portrait_fixed_loop_encodes (jobs : list SegmentJob) :
  encodes (fst (Portrait.fixed_loop env jobs))
  = until_failure (encode_ok env) jobs.
Proof.
  induction jobs as [|j jobs IH]; simpl; [reflexivity|].
  unfold Portrait.split_video_segment.
  destruct (encode_ok env j); simpl; [|reflexivity].
  destruct (Portrait.fixed_loop env jobs) as [evs done]. simpl in *.
  now rewrite IH.
Qed.

(** So does its custom loop. *)
Lemma Portrait_custom_loop_encodes (folder base aspect : string)
    (segs : list (Q * Q)) (idx : nat) :
  encodes (Portrait.custom_loop env folder base aspect idx segs)
  = until_failure (encode_ok env)
      (Portrait.custom_jobs env folder base aspect idx segs).
Proof.
  revert idx. induction segs as [|seg segs IH]; intro idx; simpl;
    [reflexivity|].
  unfold Portrait.split_video_segment.
  destruct (encode_ok env _); simpl; [|reflexivity].
  now rewrite IH.
Qed.

(** The loop of the FullScreen script goes through every job. *)
Lemma FullScreen_steps_encodes (args : FullScreen.Args)
    (folder base : string) (d : Q) (l : list nat) :
  encodes (flat_map (FullScreen.fixed_step env args folder base d) l)
  = map (FullScreen.fixed_job env args folder base d) l.
Proof.
  induction l as [|i l IH]; simpl; [reflexivity|].
  unfold FullScreen.process_segment.
  destruct (encode_ok env _); simpl; rewrite ?encodes_app; simpl;
    now rewrite IH.
Qed.

Lemma Portrait_main_fixed_encodes (args : Portrait.Args) (d : Q) :
  ffmpeg_present env = true ->
  is_file env (Portrait.input_video args) = true ->
  Portrait.split_option args = "60" ->
  String.eqb (Portrait.aspect args) "original" = false ->
  probe env (Portrait.input_video args) = Some d ->
  ~ d == 0 ->
  encodes (Portrait.main env args)
  = until_failure (encode_ok env)
      (Portrait.fixed_jobs env
         (path_join env (Portrait.output_dir args)
            (base_name_of env (Portrait.input_video args)))
         (base_name_of env (Portrait.input_video args))
         (Portrait.aspect args) d).
Proof.
  intros Hbin Hfile Hopt Hasp Hprobe Hd.
  unfold Portrait.main, Portrait.main_fixed, Portrait.get_video_duration.
  rewrite Hbin, Hfile, Hopt, Hasp, Hprobe, (Qeq_bool_false d Hd). simpl.
  rewrite <- Portrait_fixed_loop_encodes.
  destruct (Portrait.fixed_loop env _) as [evs done]. simpl.
  rewrite encodes_app. destruct done; simpl; now rewrite app_nil_r.
Qed.

Lemma Portrait_main_custom_encodes (args : Portrait.Args)
    (ts : list string) (pts : list pyfloat) (d : Q) :
  ffmpeg_present env = true ->
  is_file env (Portrait.input_video args) = true ->
  String.eqb (Portrait.split_option args) "60" = false ->
  Portrait.split_times args = Some ts ->
  ts <> [] ->
  Portrait.parse_all ts = inr pts ->
  probe env (Portrait.input_video args) = Some d ->
  ~ d == 0 ->
  encodes (Portrait.main env args)
  = until_failure (encode_ok env)
      (Portrait.custom_jobs env
         (path_join env (Portrait.output_dir args)
            (base_name_of env (Portrait.input_video args)))
         (base_name_of env (Portrait.input_video args))
         (Portrait.aspect args) 1 (Portrait.custom_segments pts d)).
Proof.
  intros Hbin Hfile Hopt Hts Hne Hparse Hprobe Hd.
  unfold Portrait.main, Portrait.main_custom, Portrait.get_video_duration.
  rewrite Hbin, Hfile, Hopt, Hts. simpl.
  destruct ts as [|t ts']; [contradiction|].
  rewrite Hparse, Hprobe, (Qeq_bool_false d Hd).
  destruct (Portrait.custom_segments pts d) as [|seg segs] eqn:Hs;
    [reflexivity|].
  exact (Portrait_custom_loop_encodes
           (path_join env (Portrait.output_dir args)
              (base_name_of env (Portrait.input_video args)))
           (base_name_of env (Portrait.input_video args))
           (Portrait.aspect args) (seg :: segs) 1).
Qed.

Lemma FullScreen_main_fixed_encodes (args : FullScreen.Args) (d : Q) :
  ffmpeg_present env && ffprobe_present env = true ->
  is_file env (FullScreen.input args) = true ->
  FullScreen.split_option args = "60" ->
  probe env (FullScreen.input args) = Some d ->
  encodes (FullScreen.main env args)
  = FullScreen.fixed_jobs env args
      (path_join env (FullScreen.output_dir args)
         (base_name_of env (FullScreen.input args)))
      (base_name_of env (FullScreen.input args)) d.
Proof.
  intros Hbin Hfile Hopt Hprobe.
  unfold FullScreen.main, FullScreen.get_video_duration.
  rewrite Hbin, Hfile, Hopt, Hprobe. simpl.
  rewrite encodes_app, FullScreen_steps_encodes. simpl.
  now rewrite app_nil_r.
Qed.

Lemma FullScreen_fixed_jobs_spans (args : FullScreen.Args)
    (folder base : string) (d : Q) :
  map job_span (FullScreen.fixed_jobs env args folder base d)
  = FullScreen.fixed_plan d.
Proof.
  unfold FullScreen.fixed_jobs, FullScreen.fixed_plan.
  rewrite map_map. apply map_ext. intro i.
  unfold job_span, FullScreen.fixed_job, FullScreen.segment_job. simpl.
  reflexivity.
Qed.

End Runs.

(** ** The 60-second plan in the two scripts *)

(** C1.  For a duration [D > 0] both scripts run [ceil(D/60)] iterations
    and iteration [i] starts at [60 i].  In the FullScreen script its length
    is [min(60, D - 60 i)], the segments tile [0, D] and their lengths add
    up to [D].  In the Portrait script every job asks for the constant 60:
    the lengths add up to [60 * ceil(D/60)], which exceeds [D] by
    [60 - D mod 60] when [D] is not a multiple of 60. *)
Theorem fixed_plan_variants (env : Env) (folder base aspect : string)
    (D : Q) (HD : 0 < D) :
  let n := Z.to_nat (Qceiling (D / 60)) in
  let plan := FullScreen.fixed_plan D in
  let spans := map job_span (Portrait.fixed_jobs env folder base aspect D) in
  (List.length plan = n
   /\ (forall i, (i < List.length plan)%nat ->
         fst (nth i plan (0, 0)) = inject_Z (Z.of_nat i * 60)
         /\ snd (nth i plan (0, 0))
            == Qmin 60 (D - inject_Z (Z.of_nat i * 60)))
   /\ tiles 0 D plan
   /\ total_length plan == D)
  /\ (List.length spans = n
      /\ (forall i, (i < List.length spans)%nat ->
            nth i spans (0, 0) = (inject_Z (Z.of_nat i * 60), 60))
      /\ total_length spans == 60 * inject_Z (Qceiling (D / 60))
      /\ (0 < mod60 D -> total_length spans == D + (60 - mod60 D))).
Proof.
  cbv zeta. split.
  - apply (FullScreen_fixed_plan_exact D HD).
  - destruct (Portrait_fixed_jobs_padded D HD env folder base aspect)
      as (H1 & H2 & _ & H4).
    repeat split; try assumption.
    intro Hm. rewrite H4, <- segment_count_ceiling.
    unfold segment_count, mod60 in *.
    apply Qltb_lt in Hm. unfold mod60 in Hm. rewrite Hm.
    rewrite inject_Z_succ. ring.
Qed.

Lemma fixed_plan_variants_witness :
  total_length (FullScreen.fixed_plan 125) == 125
  /\ total_length
       (map job_span
          (Portrait.fixed_jobs (sample_env (Some 125) (fun _ => true))
             "output/in" "in" "portrait" 125)) == 125 + (60 - mod60 125).
Proof.
  assert (H : 0 < 125) by reflexivity.
  destruct (fixed_plan_variants (sample_env (Some 125) (fun _ => true))
              "output/in" "in" "portrait" 125 H)
    as ((_ & _ & _ & H1) & (_ & _ & _ & H2)).
  split; [exact H1 | apply H2; reflexivity].
Defined.

(** C2.  On a 125-second input, whose remainder by 60 is 5, the Portrait
    script calls the encoder three times with lengths 60, 60 and 60: the
    last job is a full 60 seconds, not the 5 seconds that remain.  The
    FullScreen script calls it with lengths 60, 60 and 5. *)
Theorem Portrait_last_job_padded :
  map job_span
    (encodes (Portrait.main (sample_env (Some 125) (fun _ => true))
                            (portrait_args "60" None "portrait")))
  = [(0, 60); (60, 60); (120, 60)]
  /\ mod60 125 == 5
  /\ map job_span
       (encodes (FullScreen.main (sample_env (Some 125) (fun _ => true))
                                 (fullscreen_args "60" "pad" None)))
     = [(0, 60); (60, 60); (120, 5)].
Proof.
  repeat split.
Qed.

(** ** What happens after a job fails *)

(** C7.  In the Portrait script both loops stop at the first encoder call
    that fails: in custom mode and in 60-second mode the calls made are the
    jobs up to and including the first failing one.  In the FullScreen
    script the 60-second loop does not look at the result: every job is
    started, whatever failed before it. *)
Theorem abort_policy_variants (env : Env) :
  (forall (args : Portrait.Args) ts pts d,
      ffmpeg_present env = true ->
      is_file env (Portrait.input_video args) = true ->
      Portrait.split_option args = "custom" ->
      Portrait.split_times args = Some ts -> ts <> [] ->
      Portrait.parse_all ts = inr pts ->
      probe env (Portrait.input_video args) = Some d -> ~ d == 0 ->
      encodes (Portrait.main env args)
      = until_failure (encode_ok env)
          (Portrait.custom_jobs env
             (path_join env (Portrait.output_dir args)
                (base_name_of env (Portrait.input_video args)))
             (base_name_of env (Portrait.input_video args))
             (Portrait.aspect args) 1 (Portrait.custom_segments pts d)))
  /\ (forall (args : Portrait.Args) d,
      ffmpeg_present env = true ->
      is_file env (Portrait.input_video args) = true ->
      Portrait.split_option args = "60" ->
      String.eqb (Portrait.aspect args) "original" = false ->
      probe env (Portrait.input_video args) = Some d -> ~ d == 0 ->
      encodes (Portrait.main env args)
      = until_failure (encode_ok env)
          (Portrait.fixed_jobs env
             (path_join env (Portrait.output_dir args)
                (base_name_of env (Portrait.input_video args)))
             (base_name_of env (Portrait.input_video args))
             (Portrait.aspect args) d))
  /\ (forall (args : FullScreen.Args) d,
      ffmpeg_present env && ffprobe_present env = true ->
      is_file env (FullScreen.input args) = true ->
      FullScreen.split_option args = "60" ->
      probe env (FullScreen.input args) = Some d ->
      encodes (FullScreen.main env args)
      = FullScreen.fixed_jobs env args
          (path_join env (FullScreen.output_dir args)
             (base_name_of env (FullScreen.input args)))
          (base_name_of env (FullScreen.input args)) d).
Proof.
  split; [|split].
  - intros args ts pts d Hbin Hfile Hopt. intros.
    apply (Portrait_main_custom_encodes env args ts); try assumption.
    rewrite Hopt. reflexivity.
  - intros. now apply Portrait_main_fixed_encodes.
  - intros. now apply FullScreen_main_fixed_encodes.
Qed.

Lemma abort_policy_variants_witness :
  List.length
    (encodes (Portrait.main (sample_env (Some 100) (fun _ => false))
                (portrait_args "custom" (Some ["30"; "60"]) "portrait")))
  = 1%nat
  /\ List.length
       (encodes (Portrait.main (sample_env (Some 125) (fun _ => false))
                   (portrait_args "60" None "portrait")))
     = 1%nat
  /\ List.length
       (encodes (FullScreen.main (sample_env (Some 125) (fun _ => false))
                   (fullscreen_args "60" "pad" None)))
     = 3%nat.
Proof.
  split; [|split].
  - rewrite (proj1 (abort_policy_variants
                      (sample_env (Some 100) (fun _ => false)))
               (portrait_args "custom" (Some ["30"; "60"]) "portrait")
               ["30"; "60"] [Fin 30; Fin 60] 100);
      try reflexivity; discriminate.
  - rewrite (proj1 (proj2 (abort_policy_variants
                             (sample_env (Some 125) (fun _ => false))))
               (portrait_args "60" None "portrait") 125);
      try reflexivity; discriminate.
  - rewrite (proj2 (proj2 (abort_policy_variants
                             (sample_env (Some 125) (fun _ => false))))
               (fullscreen_args "60" "pad" None) 125);
      reflexivity.
Defined.

(** ** A probed duration of zero *)

Lemma segment_count_zero (d : Q) : d == 0 -> segment_count d = 0%Z.
Proof.
  intro Hd. rewrite segment_count_ceiling.
  apply Qceiling_unique; rewrite Hd; [reflexivity | discriminate].
Qed.

(** C10.  In the Portrait script a probed duration equal to zero stops
    [main] at the same place as a failed probe, in 60-second mode with
    re-encoding and in custom mode: nothing after the probe happens, and no
    encoder call is made; the runs differ only by the line
    [get_video_duration] prints when it has no number.  In the FullScreen
    script [main] stops there only when the probe gave no number: with a
    duration of zero it goes through the (empty) loop and prints that
    processing is completed. *)
Theorem zero_duration_variants (env : Env) (d : Q) (Hd : d == 0) :
  (forall (args : Portrait.Args),
      ffmpeg_present env = true ->
      is_file env (Portrait.input_video args) = true ->
      let folder := path_join env (Portrait.output_dir args)
                      (base_name_of env (Portrait.input_video args)) in
      (Portrait.split_option args = "60" ->
       String.eqb (Portrait.aspect args) "original" = false ->
       Portrait.main (set_probe env (Some d)) args
       = [MakeDirs folder; Print Processing60]
       /\ Portrait.main (set_probe env None) args
          = [MakeDirs folder; Print Processing60; Print ErrorGettingDuration])
      /\ (forall ts pts,
           Portrait.split_option args = "custom" ->
           Portrait.split_times args = Some ts -> ts <> [] ->
           Portrait.parse_all ts = inr pts ->
           Portrait.main (set_probe env (Some d)) args = [MakeDirs folder]
           /\ Portrait.main (set_probe env None) args
              = [MakeDirs folder; Print ErrorGettingDuration])
      /\ encodes (Portrait.main (set_probe env (Some d)) args) = []
      /\ Portrait.main (set_probe env (Some d)) args
         = without_probe_error (Portrait.main (set_probe env None) args))
  /\ (forall (args : FullScreen.Args),
      ffmpeg_present env && ffprobe_present env = true ->
      is_file env (FullScreen.input args) = true ->
      FullScreen.split_option args = "60" ->
      let folder := path_join env (FullScreen.output_dir args)
                      (base_name_of env (FullScreen.input args)) in
      FullScreen.main (set_probe env (Some d)) args
      = [MakeDirs folder; Print (OutputDirectory folder); Print Processing60;
         Print ProcessingCompleted]
      /\ FullScreen.main (set_probe env None) args
         = [MakeDirs folder; Print (OutputDirectory folder);
            Print Processing60; Print ErrorGettingDuration]
      /\ forall r, In (Print ProcessingCompleted)
                      (FullScreen.main (set_probe env r) args)
                   <-> r <> None).
Proof.
  assert (Hz : Qeq_bool d 0 = true) by now apply Qeq_bool_iff.
  split.
  - intros args Hbin Hfile folder.
    assert (H60 : Portrait.split_option args = "60" ->
                  String.eqb (Portrait.aspect args) "original" = false ->
                  Portrait.main (set_probe env (Some d)) args
                  = [MakeDirs folder; Print Processing60]
                  /\ Portrait.main (set_probe env None) args
                     = [MakeDirs folder; Print Processing60;
                        Print ErrorGettingDuration]).
    { intros Hopt Hasp.
      unfold Portrait.main, Portrait.main_fixed, Portrait.get_video_duration.
      simpl. rewrite Hbin, Hfile, Hopt, Hasp, Hz. split; reflexivity. }
    assert (Hcu : forall ts pts,
               String.eqb (Portrait.split_option args) "60" = false ->
               Portrait.split_times args = Some ts -> ts <> [] ->
               Portrait.parse_all ts = inr pts ->
               Portrait.main (set_probe env (Some d)) args = [MakeDirs folder]
               /\ Portrait.main (set_probe env None) args
                  = [MakeDirs folder; Print ErrorGettingDuration]).
    { intros ts pts Hopt Hts Hne Hparse.
      unfold Portrait.main, Portrait.main_custom, Portrait.get_video_duration.
      simpl. rewrite Hbin, Hfile, Hopt, Hts.
      destruct ts as [|t ts']; [contradiction|].
      rewrite Hparse, Hz. split; reflexivity. }
    split; [exact H60|]. split.
    { intros ts pts Hopt. apply Hcu. rewrite Hopt. reflexivity. }
    destruct (String.eqb (Portrait.split_option args) "60") eqn:Hopt.
    + apply String.eqb_eq in Hopt.
      destruct (String.eqb (Portrait.aspect args) "original") eqn:Hasp.
      * unfold Portrait.main, Portrait.main_fixed. simpl.
        rewrite Hbin, Hfile, Hopt, Hasp. simpl.
        split; [reflexivity|]. destruct (mux_ok env); reflexivity.
      * destruct (H60 Hopt eq_refl) as [-> ->]. split; reflexivity.
    + destruct (Portrait.split_times args) as [[|t ts']|] eqn:Hts.
      * unfold Portrait.main, Portrait.main_custom. simpl.
        rewrite Hbin, Hfile, Hopt, Hts. split; reflexivity.
      * destruct (Portrait.parse_all (t :: ts')) as [bad|pts] eqn:Hparse.
        -- unfold Portrait.main, Portrait.main_custom. simpl.
           rewrite Hbin, Hfile, Hopt, Hts, Hparse. split; reflexivity.
        -- destruct (Hcu (t :: ts') pts eq_refl eq_refl ltac:(discriminate) Hparse)
             as [-> ->]. split; reflexivity.
      * unfold Portrait.main, Portrait.main_custom. simpl.
        rewrite Hbin, Hfile, Hopt, Hts. split; reflexivity.
  - intros args Hbin Hfile Hopt folder.
    unfold FullScreen.main, FullScreen.get_video_duration. simpl.
    rewrite Hbin, Hfile, Hopt. simpl.
    rewrite (segment_count_zero d Hd). simpl.
    split; [reflexivity|]. split; [reflexivity|].
    intros [r|]; split; intro H; try congruence.
    + simpl. do 3 right. apply in_or_app. right. now left.
    + simpl in H. repeat (destruct H as [H|H]; try discriminate). contradiction.
Qed.

Lemma zero_duration_variants_witness :
  Portrait.main (sample_env (Some 0) (fun _ => true))
                (portrait_args "60" None "portrait")
  = [MakeDirs "output/in"; Print Processing60]
  /\ FullScreen.main (sample_env (Some 0) (fun _ => true))
                     (fullscreen_args "60" "pad" None)
     = [MakeDirs "output/in"; Print (OutputDirectory "output/in");
        Print Processing60; Print ProcessingCompleted].
Proof.
  assert (H0 : 0 == 0) by reflexivity.
  pose proof (zero_duration_variants (sample_env None (fun _ => true)) 0 H0)
    as [HP HF].
  split.
  - apply (HP (portrait_args "60" None "portrait") eq_refl eq_refl);
      reflexivity.
  - apply (HF (fullscreen_args "60" "pad" None) eq_refl eq_refl eq_refl).
Defined.

(** ** Cut points of the custom mode *)

Section CutPoints.

Import Portrait.

Lemma insert_sorted_perm (x : Q) (l : list Q) :
  Permutation (insert_sorted x l) (x :: l).
Proof.
  induction l as [|y l IH]; simpl; [reflexivity|].
  destruct (Qltb y x); [|reflexivity].
  rewrite IH. apply perm_swap.
Qed.

Lemma sorted_perm (l : list Q) : Permutation (sorted l) l.
Proof.
  induction l as [|x l IH]; simpl; [reflexivity|].
  rewrite insert_sorted_perm. now apply perm_skip.
Qed.

Lemma insert_sorted_ascending (x : Q) (l : list Q) :
  StronglySorted Qle l -> StronglySorted Qle (insert_sorted x l).
Proof.
  induction 1 as [|y l Hl IH Hy]; simpl.
  - repeat constructor.
  - destruct (Qltb y x) eqn:E.
    + apply Qltb_lt in E. constructor; [assumption|].
      rewrite insert_sorted_perm. constructor; [now apply Qlt_le_weak|].
      assumption.
    + apply Qltb_ge in E. constructor; [now constructor|].
      constructor; [assumption|].
      eapply Forall_impl; [|exact Hy].
      intros z Hz. now apply Qle_trans with y.
Qed.

Lemma sorted_ascending (l : list Q) : StronglySorted Qle (sorted l).
Proof.
  induction l as [|x l IH]; simpl; [constructor|].
  now apply insert_sorted_ascending.
Qed.

(** A value below [d] goes in before a final [d]. *)
Lemma insert_sorted_before_last (x d : Q) (l : list Q) :
  x < d -> insert_sorted x (l ++ [d]) = (insert_sorted x l ++ [d])%list.
Proof.
  intro Hx. induction l as [|y l IH]; simpl.
  - apply Qlt_le_weak, Qltb_ge in Hx. now rewrite Hx.
  - destruct (Qltb y x); [now rewrite IH | reflexivity].
Qed.

Lemma sorted_keeps_last (d : Q) (l : list Q) :
  Forall (fun q => q < d) l -> sorted (l ++ [d]) = (sorted l ++ [d])%list.
Proof.
  induction 1 as [|x l Hx Hl IH]; simpl; [reflexivity|].
  rewrite IH. now apply insert_sorted_before_last.
Qed.

(** Zero stays in front of values that are not negative. *)
Lemma insert_sorted_zero_first (l : list Q) :
  Forall (fun q => 0 <= q) l -> insert_sorted 0 l = 0 :: l.
Proof.
  destruct 1 as [|y l Hy Hl]; simpl; [reflexivity|].
  apply Qltb_ge in Hy. now rewrite Hy.
Qed.

(** The comprehension keeps finite values only, those strictly between
    zero and the duration. *)
Lemma between_finite (d : Q) (p : pyfloat) :
  between d p = true <-> exists q, p = Fin q /\ 0 < q /\ q < d.
Proof.
  unfold between. destruct p as [q| | |]; simpl.
  - fold (Qltb 0 q). fold (Qltb q d).
    rewrite andb_true_iff, !Qltb_lt. split.
    + intros [H1 H2]. eauto.
    + intros (q' & [= <-] & H). exact H.
  - split; [discriminate | intros (q & [=] & _)].
  - split; [discriminate | intros (q & [=] & _)].
  - split; [discriminate | intros (q & [=] & _)].
Qed.

Lemma kept_values (d : Q) (cuts : list pyfloat) (q : Q) :
  In q (finite_values (filter (between d) cuts))
  <-> In (Fin q) cuts /\ 0 < q /\ q < d.
Proof.
  induction cuts as [|p cuts IH]; simpl; [tauto|].
  destruct (between d p) eqn:Hb.
  - apply between_finite in Hb as (q' & -> & Hq'). simpl.
    rewrite IH. split.
    + intros [<- | [H1 H2]]; [split; auto | tauto].
    + intros [[[= ->] | H1] H2]; [now left | tauto].
  - rewrite IH. split; [tauto|].
    intros [[-> | H1] H2]; [|tauto].
    assert (between d (Fin q) = true) by (apply between_finite; eauto).
    congruence.
Qed.

(** No value is lost when the kept floats are read as finite values. *)
Lemma kept_all_finite (d : Q) (cuts : list pyfloat) :
  map Fin (finite_values (filter (between d) cuts))
  = filter (between d) cuts.
Proof.
  induction cuts as [|p cuts IH]; simpl; [reflexivity|].
  destruct (between d p) eqn:Hb; [|exact IH].
  apply between_finite in Hb as (q & -> & _). simpl. now rewrite IH.
Qed.

Variables (cuts : list pyfloat) (D : Q).
Hypothesis HD : 0 <= D.

Let kept : list Q := finite_values (filter (between D) cuts).

Lemma kept_inside : Forall (fun q => 0 < q /\ q < D) kept.
Proof.
  apply Forall_forall. intros q Hq. now apply kept_values in Hq.
Qed.

(** The list of cut points: zero, the kept values in ascending order,
    the duration. *)
Lemma cut_points_bracketed :
  cut_points cuts D = 0 :: (sorted kept ++ [D])%list.
Proof.
  unfold cut_points. fold kept. simpl.
  rewrite sorted_keeps_last.
  - apply insert_sorted_zero_first. apply Forall_app. split.
    + rewrite sorted_perm. eapply Forall_impl; [|apply kept_inside].
      intros q [H _]. now apply Qlt_le_weak.
    + now constructor.
  - eapply Forall_impl; [|apply kept_inside]. now intros q [_ H].
Qed.

Lemma cut_points_ascending : StronglySorted Qle (cut_points cuts D).
Proof. apply sorted_ascending. Qed.

End CutPoints.

(** C8, as stated, fails on the part about duplicates: a cut value given
    twice is in the list of cut points twice. *)
Lemma cut_points_not_deduplicated :
  Portrait.parse_all ["30"; "30"] = inr [Fin 30; Fin 30]
  /\ Portrait.cut_points [Fin 30; Fin 30] 100 = [0; 30; 30; 100]
  /\ ~ NoDup (Portrait.cut_points [Fin 30; Fin 30] 100).
Proof.
  split; [reflexivity|]. split; [reflexivity|].
  intro H. change (NoDup [0; 30; 30; 100]) in H.
  apply NoDup_cons_iff in H as [_ H].
  apply NoDup_cons_iff in H as [H _].
  apply H. now left.
Qed.

(** C8, amended.  For a duration [D >= 0] and any parsed cut values, the
    list of cut points is zero, then the given values that lie strictly
    between zero and [D], then [D]; it is in ascending order; a value is
    among the inner points exactly when it was given and lies strictly
    between zero and [D], and it is there as many times as it was given
    (the inner points are a rearrangement of the kept values, duplicates
    included). *)
Theorem cut_points_spec (cuts : list pyfloat) (D : Q) (HD : 0 <= D) :
  exists inner,
    Portrait.cut_points cuts D = 0 :: (inner ++ [D])%list
    /\ StronglySorted Qle (Portrait.cut_points cuts D)
    /\ Permutation (map Fin inner) (filter (Portrait.between D) cuts)
    /\ forall q, In q inner <-> In (Fin q) cuts /\ 0 < q /\ q < D.
Proof.
  exists (sorted (Portrait.finite_values (filter (Portrait.between D) cuts))).
  split; [now apply cut_points_bracketed|].
  split; [apply cut_points_ascending|].
  split.
  - etransitivity; [apply Permutation_map, sorted_perm|].
    now rewrite kept_all_finite.
  - intro q. rewrite <- kept_values. split; intro H.
    + eapply Permutation_in; [apply sorted_perm | exact H].
    + eapply Permutation_in; [symmetry; apply sorted_perm | exact H].
Qed.

Lemma cut_points_spec_witness :
  exists inner,
    Portrait.cut_points [Fin 60; Fin 30; Fin 200; NaN; Fin 30] 100
    = 0 :: (inner ++ [100])%list
    /\ StronglySorted Qle
         (Portrait.cut_points [Fin 60; Fin 30; Fin 200; NaN; Fin 30] 100)
    /\ Permutation (map Fin inner)
         (filter (Portrait.between 100)
                 [Fin 60; Fin 30; Fin 200; NaN; Fin 30])
    /\ forall q, In q inner
                 <-> In (Fin q) [Fin 60; Fin 30; Fin 200; NaN; Fin 30]
                     /\ 0 < q /\ q < 100.
Proof.
  apply (cut_points_spec [Fin 60; Fin 30; Fin 200; NaN; Fin 30] 100).
  discriminate.
Defined.

(** ** Segments of the custom mode *)

Section Segments.

Import Portrait.

(** The loop keeps, in order, the gaps that pass its test, each with its
    length as the subtraction gives it. *)
Lemma segments_of_filter (pts : list Q) :
  segments_of pts = map as_computed (filter long_enough (all_gaps pts)).
Proof.
  induction pts as [|a pts IH]; [reflexivity|].
  destruct pts as [|b pts]; [reflexivity|].
  change (segments_of (a :: b :: pts))
    with (if long_enough (a, b - a)
          then as_computed (a, b - a) :: segments_of (b :: pts)
          else segments_of (b :: pts)).
  change (all_gaps (a :: b :: pts))
    with ((a, b - a) :: all_gaps (b :: pts)).
  cbn [filter]. rewrite IH. now destruct (long_enough (a, b - a)).
Qed.

(** A gap of length zero does not pass the test. *)
Lemma long_enough_positive (g : Q * Q) :
  0 <= snd g -> long_enough g = true -> 0 < snd g.
Proof.
  intros Hnn Hl. destruct (Qlt_le_dec 0 (snd g)) as [H | H]; [exact H|].
  assert (Hz : snd g == 0) by lra.
  unfold long_enough in Hl. now rewrite (round_q_zero _ Hz) in Hl.
Qed.

Lemma starts_as_computed (l : list (Q * Q)) :
  map fst (map as_computed l) = map fst l.
Proof. rewrite map_map. reflexivity. Qed.

(** The gaps between the points tile the stretch from the first point
    to the last. *)
Lemma all_gaps_tile (a b : Q) (mid : list Q) :
  tiles a b (all_gaps (a :: mid ++ [b])).
Proof.
  revert a. induction mid as [|m mid IH]; intro a.
  - simpl. split; [reflexivity | ring].
  - change (all_gaps (a :: (m :: mid) ++ [b]))
      with ((a, m - a) :: all_gaps (m :: mid ++ [b])).
    split; [reflexivity|].
    eapply tiles_compat; [| reflexivity | apply IH].
    simpl. ring.
Qed.

Lemma all_gaps_start (g : Q * Q) (pts : list Q) :
  In g (all_gaps pts) -> In (fst g) pts.
Proof.
  induction pts as [|a pts IH]; [intros []|].
  destruct pts as [|b pts]; [intros []|].
  change (all_gaps (a :: b :: pts))
    with ((a, b - a) :: all_gaps (b :: pts)).
  intros [<- | H]; [now left | right; now apply IH].
Qed.

(** Between points in ascending order, no gap is negative and each gap
    ends before every later one starts. *)
Lemma all_gaps_ordered (pts : list Q) :
  StronglySorted Qle pts ->
  Forall (fun g => 0 <= snd g) (all_gaps pts)
  /\ StronglySorted ends_before (all_gaps pts).
Proof.
  induction 1 as [|a pts Hs IH Ha]; [split; constructor|].
  destruct pts as [|b pts]; [split; constructor|].
  change (all_gaps (a :: b :: pts))
    with ((a, b - a) :: all_gaps (b :: pts)).
  destruct IH as [IH1 IH2].
  assert (Hab : a <= b) by (inversion Ha; assumption).
  split; constructor; try assumption.
  - simpl. lra.
  - apply Forall_forall. intros g Hg. unfold ends_before. simpl.
    apply all_gaps_start in Hg.
    assert (b <= fst g).
    { destruct Hg as [<- | Hg]; [apply Qle_refl|].
      inversion Hs as [|? ? _ Hb]; subst.
      rewrite Forall_forall in Hb. now apply Hb. }
    lra.
Qed.

Lemma StronglySorted_filter {A : Type} (R : A -> A -> Prop)
    (f : A -> bool) (l : list A) :
  StronglySorted R l -> StronglySorted R (filter f l).
Proof.
  induction 1 as [|x l Hl IH Hx]; simpl; [constructor|].
  destruct (f x); [|assumption].
  constructor; [assumption|].
  apply Forall_forall. intros y Hy. apply filter_In in Hy as [Hy _].
  rewrite Forall_forall in Hx. now apply Hx.
Qed.

(** Segments longer than zero, each ending before the later ones start,
    have strictly increasing starts. *)
Lemma starts_increasing (segs : list (Q * Q)) :
  Forall (fun s => 0 < snd s) segs ->
  StronglySorted ends_before segs ->
  StronglySorted Qlt (map fst segs).
Proof.
  intros Hpos. induction 1 as [|s segs Hs IH Hb]; simpl; [constructor|].
  inversion Hpos as [|? ? Hp Hpos']; subst.
  constructor; [now apply IH|].
  apply Forall_forall. intros x Hx.
  apply in_map_iff in Hx as (s' & <- & Hs').
  rewrite Forall_forall in Hb. specialize (Hb s' Hs').
  unfold ends_before in Hb. lra.
Qed.

End Segments.

Lemma total_length_split (f : Q * Q -> bool) (l : list (Q * Q)) :
  total_length (filter f l) + total_length (filter (fun g => negb (f g)) l)
  == total_length l.
Proof.
  induction l as [|g l IH]; simpl; [reflexivity|].
  destruct (f g); simpl; rewrite <- IH; ring.
Qed.

Lemma custom_jobs_spans (env : Env) (folder base aspect : string)
    (segs : list (Q * Q)) (idx : nat) :
  map job_span (Portrait.custom_jobs env folder base aspect idx segs) = segs.
Proof.
  revert idx. induction segs as [|[s l] segs IH]; intro idx; simpl;
    [reflexivity|].
  now rewrite IH.
Qed.

(** C4.  For cut points in ascending order that begin with zero and end
    with [D], the segments of the custom mode are the gaps between adjacent
    points that pass the test of the loop, in order, each with the length
    the float subtraction gives it.  That length is greater than the float
    [0.1], which is itself more than a tenth; the gaps that pass are longer
    than zero and each ends before the later ones start, so the starts
    increase strictly; all the gaps together tile [0, D], and a gap left out
    is one whose computed length is at most the float [0.1], so the gaps
    that pass and the gaps left out add up to [D].  The cut times ["30"] and
    ["30.05"] on a 100-second video give the points 0, 30, the double next
    to 30.05 and 100, and the two segments from 0 to 30 and from 30.05 to
    100; the gap between 30 and 30.05 is left out. *)
Theorem custom_segments_partition (mid : list Q) (D : Q)
    (Hsorted : Sorted Qle (0 :: mid ++ [D])) :
  let pts := (0 :: mid ++ [D])%list in
  let segs := Portrait.segments_of pts in
  let kept := filter long_enough (all_gaps pts) in
  let dropped := filter (fun g => negb (long_enough g)) (all_gaps pts) in
  (Forall (fun s => Float64.tenth < snd s) segs
   /\ 1 # 10 < Float64.tenth
   /\ StronglySorted Qlt (map fst segs)
   /\ segs = map as_computed kept
   /\ Forall (fun g => 0 < snd g) kept
   /\ StronglySorted ends_before kept
   /\ tiles 0 D (all_gaps pts)
   /\ Forall (fun g => 0 <= snd g
                       /\ Float64.round_q (snd g) <= Float64.tenth) dropped
   /\ total_length kept + total_length dropped == D)
  /\ (let c := 8458323050155213 # 281474976710656 in
      let len := 4922293655227597 # 70368744177664 in
      Portrait.parse_all ["30"; "30.05"] = inr [Fin 30; Fin c]
      /\ Portrait.cut_points [Fin 30; Fin c] 100 = [0; 30; c; 100]
      /\ Portrait.custom_segments [Fin 30; Fin c] 100 = [(0, 30); (c, len)]
      /\ long_enough (30, c - 30) = false
      /\ Float64.add c len = 100
      /\ map job_span
           (encodes (Portrait.main (sample_env (Some 100) (fun _ => true))
                       (portrait_args "custom" (Some ["30"; "30.05"])
                                      "original")))
         = [(0, 30); (c, len)]).
Proof.
  cbv zeta. split; [|repeat split; vm_compute; reflexivity].
  assert (Hs : StronglySorted Qle (0 :: mid ++ [D])).
  { apply Sorted_StronglySorted; [|assumption].
    intros x y z. apply Qle_trans. }
  destruct (all_gaps_ordered _ Hs) as [Hnn Hord].
  rewrite Forall_forall in Hnn.
  assert (Hpos : Forall (fun g => 0 < snd g)
                        (filter long_enough (all_gaps (0 :: mid ++ [D])))).
  { apply Forall_forall. intros g Hin. apply filter_In in Hin as [Hin Hg].
    apply long_enough_positive; [now apply Hnn | exact Hg]. }
  assert (Hseg : StronglySorted ends_before
                   (filter long_enough (all_gaps (0 :: mid ++ [D]))))
    by now apply StronglySorted_filter.
  rewrite segments_of_filter.
  split; [|split; [|split; [|split; [|split; [|split; [|split;
    [|split]]]]]]].
  - apply Forall_forall. intros s Hin.
    apply in_map_iff in Hin as (g & <- & Hin).
    apply filter_In in Hin as [_ Hg]. now apply Qltb_lt.
  - exact tenth_above.
  - rewrite starts_as_computed. now apply starts_increasing.
  - reflexivity.
  - exact Hpos.
  - exact Hseg.
  - apply all_gaps_tile.
  - apply Forall_forall. intros g Hin. apply filter_In in Hin as [Hin Hg].
    split; [now apply Hnn|].
    apply negb_true_iff in Hg. now apply Qltb_ge in Hg.
  - rewrite total_length_split.
    rewrite (tiles_total_length 0 D) by apply all_gaps_tile. ring.
Qed.

Lemma custom_segments_partition_witness :
  let c := 8458323050155213 # 281474976710656 in
  Forall (fun s => Float64.tenth < snd s)
         (Portrait.segments_of (0 :: [30; c] ++ [100]))
  /\ StronglySorted Qlt
       (map fst (Portrait.segments_of (0 :: [30; c] ++ [100]))).
Proof.
  intro c.
  assert (H : Sorted Qle (0 :: [30; c] ++ [100])).
  { simpl. repeat constructor; discriminate. }
  destruct (custom_segments_partition [30; c] 100 H)
    as ((H1 & _ & H2 & _) & _).
  split; assumption.
Defined.

(** ** When the custom mode runs no job *)

Section CustomFailure.

Import Portrait.

Lemma parse_all_inl_iff (ts : list string) :
  (exists bad, parse_all ts = inl bad)
  <-> exists t, In t ts /\ parse_time t = None.
Proof.
  induction ts as [|t ts IH]; simpl.
  - split; [intros (bad & [=]) | intros (t & [] & _)].
  - destruct (parse_time t) as [x|] eqn:Ht.
    + destruct (parse_all ts) as [bad|ps].
      * split; [intros _ | eauto].
        destruct (proj1 IH (ex_intro _ bad eq_refl)) as (u & Hu & Hn).
        eauto.
      * split; [intros (bad & [=])|].
        intros (u & [<- | Hu] & Hn); [congruence|].
        destruct (proj2 IH (ex_intro _ u (conj Hu Hn))) as (bad & [=]).
    + split; eauto.
Qed.

Lemma until_failure_nil (ok : SegmentJob -> bool) (jobs : list SegmentJob) :
  until_failure ok jobs = [] <-> jobs = [].
Proof. destruct jobs; simpl; split; congruence. Qed.

Lemma custom_jobs_nil (env : Env) (folder base aspect : string)
    (idx : nat) (segs : list (Q * Q)) :
  custom_jobs env folder base aspect idx segs = [] <-> segs = [].
Proof. destruct segs; simpl; split; congruence. Qed.

(** With a duration of zero no segment is long enough. *)
Lemma custom_segments_zero (pts : list pyfloat) (d : Q) :
  d == 0 -> custom_segments pts d = [].
Proof.
  intro Hd. unfold custom_segments, cut_points.
  assert (Hk : filter (between d) pts = []).
  { induction pts as [|p pts IH]; simpl; [reflexivity|].
    destruct (between d p) eqn:Hb; [|exact IH].
    apply between_finite in Hb as (q & _ & H1 & H2). lra. }
  rewrite Hk. simpl.
  assert (E : Qltb d 0 = false) by (apply Qltb_ge; lra).
  rewrite E. cbn [segments_of]. unfold Float64.sub.
  assert (Hz : d - 0 == 0) by lra.
  now rewrite (round_q_zero _ Hz).
Qed.

Variables (env : Env) (args : Args).
Hypothesis Hbin : ffmpeg_present env = true.
Hypothesis Hfile : is_file env (input_video args) = true.
Hypothesis Hopt : split_option args = "custom".

Let folder : string :=
  path_join env (output_dir args) (base_name_of env (input_video args)).

Lemma main_custom_unfold :
  main env args
  = MakeDirs folder
      :: main_custom env args folder (base_name_of env (input_video args)).
Proof.
  unfold main. rewrite Hbin, Hfile, Hopt. reflexivity.
Qed.

Lemma main_no_times :
  split_times args = None \/ split_times args = Some [] ->
  main env args = [MakeDirs folder; Print CustomRequiresSplitTimes].
Proof.
  intros H. rewrite main_custom_unfold. unfold main_custom.
  destruct H as [-> | ->]; reflexivity.
Qed.

Lemma main_bad_time (ts : list string) (bad : string) :
  split_times args = Some ts -> ts <> [] -> parse_all ts = inl bad ->
  main env args = [MakeDirs folder; Print (InvalidTimeFormat bad)].
Proof.
  intros Hts Hne Hp. rewrite main_custom_unfold. unfold main_custom.
  rewrite Hts. destruct ts; [contradiction|]. now rewrite Hp.
Qed.

Lemma main_probe_failed (ts : list string) (pts : list pyfloat) :
  split_times args = Some ts -> ts <> [] -> parse_all ts = inr pts ->
  probe env (input_video args) = None ->
  main env args = [MakeDirs folder; Print ErrorGettingDuration].
Proof.
  intros Hts Hne Hp Hpr. rewrite main_custom_unfold.
  unfold main_custom, get_video_duration.
  rewrite Hts. destruct ts; [contradiction|]. now rewrite Hp, Hpr.
Qed.

Lemma main_zero_duration (ts : list string) (pts : list pyfloat) (d : Q) :
  split_times args = Some ts -> ts <> [] -> parse_all ts = inr pts ->
  probe env (input_video args) = Some d -> d == 0 ->
  main env args = [MakeDirs folder].
Proof.
  intros Hts Hne Hp Hpr Hd. rewrite main_custom_unfold.
  unfold main_custom, get_video_duration.
  rewrite Hts. destruct ts; [contradiction|]. rewrite Hp, Hpr.
  apply Qeq_bool_iff in Hd. now rewrite Hd.
Qed.

Lemma main_no_segments (ts : list string) (pts : list pyfloat) (d : Q) :
  split_times args = Some ts -> ts <> [] -> parse_all ts = inr pts ->
  probe env (input_video args) = Some d -> ~ d == 0 ->
  custom_segments pts d = [] ->
  main env args = [MakeDirs folder; Print NoValidSegments].
Proof.
  intros Hts Hne Hp Hpr Hd Hs. rewrite main_custom_unfold.
  unfold main_custom, get_video_duration.
  rewrite Hts. destruct ts; [contradiction|].
  now rewrite Hp, Hpr, (Qeq_bool_false d Hd), Hs.
Qed.

End CustomFailure.

(** C6, as stated, fails: without [--split-times] the custom mode reports
    an error and runs no job, although the prober answers, no cut string
    fails to parse (there is none) and the video would give a segment. *)
Lemma custom_failure_other_cause :
  let env := sample_env (Some 100) (fun _ => true) in
  let args := portrait_args "custom" None "portrait" in
  (encodes (Portrait.main env args) = []
   /\ errors (Portrait.main env args) = [CustomRequiresSplitTimes])
  /\ ~ (probe env (Portrait.input_video args) = None
        \/ (exists t, In t (@nil string) /\ Portrait.parse_time t = None)
        \/ Portrait.custom_segments [] 100 = []).
Proof.
  cbv zeta. split; [split; reflexivity|].
  intros [H | [(t & [] & _) | H]]; discriminate H.
Qed.

(** C6, amended.  In the Portrait script, custom mode runs no encoder call
    exactly when no split time was given, or some cut string fails to parse
    (then nothing is planned from the strings that did parse), or the
    prober gives no number, or no segment longer than a tenth of a second
    remains (a probed duration of zero is such a case).  Whenever no call
    is run and the probed duration is not zero, an error line is
    printed. *)
Theorem custom_zero_jobs_iff (env : Env) (args : Portrait.Args)
    (Hbin : ffmpeg_present env = true)
    (Hfile : is_file env (Portrait.input_video args) = true)
    (Hopt : Portrait.split_option args = "custom") :
  let ts := match Portrait.split_times args with
            | Some ts => ts
            | None => []
            end in
  let run := Portrait.main env args in
  (encodes run = []
   <-> ts = []
       \/ (exists t, In t ts /\ Portrait.parse_time t = None)
       \/ probe env (Portrait.input_video args) = None
       \/ (exists pts d,
             Portrait.parse_all ts = inr pts
             /\ probe env (Portrait.input_video args) = Some d
             /\ Portrait.custom_segments pts d = []))
  /\ (encodes run = [] ->
      (forall d, probe env (Portrait.input_video args) = Some d -> ~ d == 0) ->
      errors run <> []).
Proof.
  cbv zeta.
  destruct (Portrait.split_times args) as [[|t0 ts0]|] eqn:Hts.
  1, 3: rewrite (main_no_times env args Hbin Hfile Hopt) by auto;
        split; [split; auto | intros _ _; discriminate].
  set (ts := t0 :: ts0) in *.
  assert (Hne : ts <> []) by discriminate.
  destruct (Portrait.parse_all ts) as [bad|pts] eqn:Hp.
  { rewrite (main_bad_time env args Hbin Hfile Hopt ts bad Hts Hne Hp).
    split; [|intros _ _; discriminate].
    split; [intros _ | reflexivity].
    right; left. apply parse_all_inl_iff. eauto. }
  assert (Hgood : ~ exists t, In t ts /\ Portrait.parse_time t = None).
  { intro H. apply parse_all_inl_iff in H as (bad & H). congruence. }
  destruct (probe env (Portrait.input_video args)) as [d|] eqn:Hpr.
  2: { rewrite (main_probe_failed env args Hbin Hfile Hopt ts pts Hts Hne Hp Hpr).
       split; [split; auto | intros _ _; discriminate]. }
  destruct (Qeq_dec d 0) as [Hd|Hd].
  { rewrite (main_zero_duration env args Hbin Hfile Hopt ts pts d
               Hts Hne Hp Hpr Hd).
    split.
    - split; [intros _ | reflexivity].
      do 3 right. exists pts, d. repeat split.
      now apply custom_segments_zero.
    - intros _ H. exfalso. exact (H d eq_refl Hd). }
  destruct (Portrait.custom_segments pts d) as [|seg segs] eqn:Hs.
  { rewrite (main_no_segments env args Hbin Hfile Hopt ts pts d
               Hts Hne Hp Hpr Hd Hs).
    split; [|intros _ _; discriminate].
    split; [intros _ | reflexivity].
    do 3 right. exists pts, d. auto. }
  assert (Hrun : encodes (Portrait.main env args) <> []).
  { rewrite (Portrait_main_custom_encodes env args ts pts d);
      try assumption; [|rewrite Hopt; reflexivity].
    rewrite Hs. discriminate. }
  split; [|intros H; contradiction].
  split; [intros H; contradiction|].
  intros [H | [H | [H | (pts' & d' & H1 & H2 & H3)]]].
  - contradiction.
  - contradiction.
  - discriminate.
  - injection H1 as <-. injection H2 as <-. congruence.
Qed.

Lemma custom_zero_jobs_iff_witness :
  encodes (Portrait.main (sample_env (Some (1 # 5)) (fun _ => true))
             (portrait_args "custom" (Some ["0.1"]) "portrait")) = []
  /\ errors (Portrait.main (sample_env (Some (1 # 5)) (fun _ => true))
               (portrait_args "custom" (Some ["0.1"]) "portrait")) <> [].
Proof.
  destruct (custom_zero_jobs_iff
              (sample_env (Some (1 # 5)) (fun _ => true))
              (portrait_args "custom" (Some ["0.1"]) "portrait")
              eq_refl eq_refl eq_refl) as [Hiff Herr].
  assert (H : encodes (Portrait.main (sample_env (Some (1 # 5)) (fun _ => true))
             (portrait_args "custom" (Some ["0.1"]) "portrait")) = []).
  { apply Hiff. do 3 right. exists [Fin Float64.tenth], (1 # 5).
    repeat split; vm_compute; reflexivity. }
  split; [exact H|].
  apply Herr; [exact H|].
  intros d [= <-]. discriminate.
Defined.


(** * Further properties of the scripts *)

(** ** Decimal text is read back as the number it was written from *)

Section DecimalText.

Import PyStr.

Lemma chars_app (s1 s2 : string) :
  chars (s1 ++ s2) = (chars s1 ++ chars s2)%list.
Proof.
  unfold chars. induction s1 as [|c s1 IH]; simpl; [reflexivity|].
  now rewrite IH.
Qed.

Lemma of_chars_chars (s : string) : of_chars (chars s) = s.
Proof. apply string_of_list_ascii_of_string. Qed.

Lemma chars_of_chars (l : list ascii) : chars (of_chars l) = l.
Proof. apply list_ascii_of_string_of_list_ascii. Qed.

(** The characters of a decimal numeral are digits. *)
Lemma uint_chars_digits (d : Decimal.uint) :
  Forall (fun c => is_digit c = true) (chars (NilEmpty.string_of_uint d)).
Proof.
  induction d; simpl; constructor; (reflexivity || assumption).
Qed.

(** Reading the characters of a numeral from the left, as [digits_val]
    does, gives the number the numeral stands for. *)
Lemma uint_chars_value (d d' : Decimal.uint) :
  fold_left (fun acc c => 10 * acc + digit_val c)%Z
            (chars (NilEmpty.string_of_uint d))
            (Z.of_N (DecimalPos.Unsigned.of_lu d'))
  = Z.of_N (DecimalPos.Unsigned.of_lu (Decimal.revapp d d')).
Proof.
  revert d'. induction d; intro d'; [reflexivity|..];
    (etransitivity; [|apply IHd]);
    cbn [NilEmpty.string_of_uint chars list_ascii_of_string fold_left];
    f_equal; cbn [DecimalPos.Unsigned.of_lu];
    rewrite ?N2Z.inj_add, ?N2Z.inj_mul;
    match goal with
    | |- context [digit_val ?c] =>
        let v := eval vm_compute in (digit_val c) in
        change (digit_val c) with v
    end; lia.
Qed.

Lemma uint_digits_val (d : Decimal.uint) :
  digits_val (chars (NilEmpty.string_of_uint d)) = Z.of_uint d.
Proof.
  unfold digits_val, Z.of_uint. rewrite DecimalPos.Unsigned.of_uint_alt.
  apply (uint_chars_value d Decimal.Nil).
Qed.

(** The decimal text of a natural number: not empty, digits only, and its
    value is the number. *)
Lemma str_of_nat_digits (n : nat) :
  chars (str_of_nat n) <> []
  /\ Forall (fun c => is_digit c = true) (chars (str_of_nat n))
  /\ digits_val (chars (str_of_nat n)) = Z.of_nat n.
Proof.
  unfold str_of_nat, str_of_Z.
  destruct (Z.of_nat n) as [|p|p] eqn:E; [| |lia].
  - simpl. repeat split; [discriminate | repeat constructor].
  - simpl. pose proof (DecimalPos.Unsigned.to_uint_nonnil p) as Hnn.
    assert (Hs : NilZero.string_of_uint (Pos.to_uint p)
                 = NilEmpty.string_of_uint (Pos.to_uint p)).
    { unfold NilZero.string_of_uint.
      destruct (Pos.to_uint p); [contradiction|..]; reflexivity. }
    rewrite Hs. repeat split.
    + destruct (Pos.to_uint p); [contradiction|..]; discriminate.
    + apply uint_chars_digits.
    + rewrite uint_digits_val. unfold Z.of_uint.
      now rewrite DecimalPos.Unsigned.of_to.
Qed.

End DecimalText.

(** ** Reading plain numbers and colon-separated fields *)

Section PlainNumbers.

Import PyStr.

Lemma digit_facts (c : ascii) :
  is_digit c = true ->
  is_space c = false
  /\ Ascii.eqb c "_" = false
  /\ Ascii.eqb c ":" = false
  /\ lower c = c
  /\ Ascii.eqb c "i" = false
  /\ Ascii.eqb c "n" = false
  /\ take_sign [c] = (false, [c]).
Proof.
  destruct c as [[] [] [] [] [] [] [] []]; intro H;
    try discriminate H; repeat split.
Qed.

Lemma take_sign_digit (c : ascii) (l : list ascii) :
  is_digit c = true -> take_sign (c :: l) = (false, c :: l).
Proof.
  destruct c as [[] [] [] [] [] [] [] []]; intro H;
    try discriminate H; reflexivity.
Qed.

Lemma lstrip_digit (c : ascii) (l : list ascii) :
  is_digit c = true -> lstrip (c :: l) = c :: l.
Proof.
  intro H. simpl. now rewrite (proj1 (digit_facts c H)).
Qed.

Lemma strip_digits (l : list ascii) :
  Forall (fun c => is_digit c = true) l -> strip l = l.
Proof.
  intro H. unfold strip.
  assert (Hl : forall m, Forall (fun c => is_digit c = true) m ->
                         lstrip m = m).
  { intros [|c m] Hm; [reflexivity|].
    inversion Hm; subst. now apply lstrip_digit. }
  rewrite (Hl l H), (Hl (rev l)), rev_involutive; [reflexivity|].
  now apply Forall_rev.
Qed.

Lemma drop_underscores_step (prev : option ascii) (c : ascii)
    (l : list ascii) :
  is_digit c = true ->
  drop_underscores prev (c :: l)
  = option_map (cons c) (drop_underscores (Some c) l).
Proof.
  intro H. cbn [drop_underscores].
  rewrite (proj1 (proj2 (digit_facts c H))), H.
  destruct prev as [[[] [] [] [] [] [] [] []]|]; reflexivity.
Qed.

Lemma drop_underscores_end (c : ascii) :
  is_digit c = true -> drop_underscores (Some c) [] = Some [].
Proof.
  destruct c as [[] [] [] [] [] [] [] []]; intro H;
    try discriminate H; reflexivity.
Qed.

Lemma drop_underscores_digits (l : list ascii) :
  Forall (fun c => is_digit c = true) l ->
  drop_underscores None l = Some l.
Proof.
  intro H. destruct H as [|c l Hc Hl]; [reflexivity|].
  rewrite drop_underscores_step by assumption.
  revert c Hc. induction Hl as [|c' l Hc' Hl IH]; intros c Hc.
  - now rewrite drop_underscores_end.
  - rewrite drop_underscores_step by assumption.
    now rewrite (IH c' Hc').
Qed.

Lemma span_digits_all (l : list ascii) :
  Forall (fun c => is_digit c = true) l -> span_digits l = (l, []).
Proof.
  induction 1 as [|c l Hc Hl IH]; simpl; [reflexivity|].
  now rewrite Hc, IH.
Qed.

Lemma scale10_integer (z : Z) : scale10 z 0 = inject_Z z.
Proof.
  unfold scale10. rewrite (Qred_complete _ (inject_Z z)).
  - apply Qred_integer.
  - simpl. ring.
Qed.

(** [float] reads a run of digits as the double nearest to the number it
    denotes. *)
Lemma float_digits (l : list ascii) :
  l <> [] -> Forall (fun c => is_digit c = true) l ->
  float (of_chars l) = Some (Float64.round (inject_Z (digits_val l))).
Proof.
  intros Hne Hd. unfold float.
  rewrite chars_of_chars, strip_digits, drop_underscores_digits
    by assumption.
  destruct l as [|c l]; [contradiction|].
  inversion Hd as [|? ? Hc Hl]; subst.
  rewrite take_sign_digit by assumption. cbn [option_map].
  unfold read_abs.
  destruct (digit_facts c Hc) as (_ & _ & _ & Hlow & Hi & Hn & _).
  cbn [map of_chars string_of_list_ascii String.eqb]. rewrite Hlow, Hi, Hn.
  cbn [andb orb].
  rewrite span_digits_all by assumption.
  rewrite app_nil_r. cbn [read_exponent List.length].
  now rewrite Z.sub_0_r, scale10_integer.
Qed.

Lemma contains_digits (l : list ascii) :
  Forall (fun c => is_digit c = true) l ->
  contains ":" (of_chars l) = false.
Proof.
  intro H. unfold contains. rewrite chars_of_chars.
  induction H as [|c l Hc Hl IH]; [reflexivity|].
  cbn [existsb]. rewrite Ascii.eqb_sym.
  now rewrite (proj1 (proj2 (proj2 (digit_facts c Hc)))), IH.
Qed.

Lemma float_str_of_nat (n : nat) :
  float (str_of_nat n) = Some (Float64.round (inject_Z (Z.of_nat n))).
Proof.
  destruct (str_of_nat_digits n) as (Hne & Hd & Hv).
  rewrite <- (of_chars_chars (str_of_nat n)).
  rewrite float_digits by assumption. now rewrite Hv.
Qed.

(** Up to [2^53] the text of a natural number is read back as that
    number. *)
Lemma float_str_of_small_nat (n : nat) :
  (Z.of_nat n <= 2 ^ 53)%Z ->
  float (str_of_nat n) = Some (Fin (inject_Z (Z.of_nat n))).
Proof.
  intro Hn. rewrite float_str_of_nat.
  rewrite (round_integer _ (Z.of_nat n)); [reflexivity | reflexivity | lia].
Qed.

(** Products and sums of whole numbers are exact as long as they stay
    within [2^53]. *)
Lemma mul_integers (a b : Z) :
  (Z.abs (a * b) <= 2 ^ 53)%Z ->
  PyFloat.mul (Fin (inject_Z a)) (PyFloat.of_Z b) = Fin (inject_Z (a * b)).
Proof.
  intro H. unfold PyFloat.mul, PyFloat.of_Z.
  apply round_integer; [|exact H]. now rewrite inject_Z_mult.
Qed.

Lemma add_integers (a b : Z) :
  (Z.abs (a + b) <= 2 ^ 53)%Z ->
  PyFloat.add (Fin (inject_Z a)) (Fin (inject_Z b)) = Fin (inject_Z (a + b)).
Proof.
  intro H. unfold PyFloat.add.
  apply round_integer; [|exact H]. now rewrite inject_Z_plus.
Qed.

Lemma contains_str_of_nat (n : nat) : contains ":" (str_of_nat n) = false.
Proof.
  destruct (str_of_nat_digits n) as (_ & Hd & _).
  rewrite <- (of_chars_chars (str_of_nat n)). now apply contains_digits.
Qed.

(** Before its first separator a string has one field; the other fields
    are those of the rest. *)
Lemma split_chars_first (c : ascii) (l1 l2 cur : list ascii) :
  existsb (Ascii.eqb c) l1 = false ->
  split_chars c cur (l1 ++ c :: l2)
  = (rev cur ++ l1)%list :: split_chars c [] l2.
Proof.
  revert cur. induction l1 as [|x l1 IH]; intros cur H.
  - simpl. now rewrite Ascii.eqb_refl, app_nil_r.
  - simpl in H. apply orb_false_iff in H as [Hx Hl].
    simpl. rewrite Ascii.eqb_sym, Hx, IH by assumption.
    simpl. now rewrite <- app_assoc.
Qed.

Lemma split_first (c : ascii) (f rest : string) :
  contains c f = false ->
  split c (f ++ String c rest) = f :: split c rest.
Proof.
  unfold contains, split. intro H.
  rewrite chars_app. change (chars (String c rest)) with (c :: chars rest).
  rewrite split_chars_first by assumption.
  simpl. now rewrite of_chars_chars.
Qed.

Lemma contains_app (c : ascii) (s1 s2 : string) :
  contains c (s1 ++ s2) = contains c s1 || contains c s2.
Proof.
  unfold contains. now rewrite chars_app, existsb_app.
Qed.

End PlainNumbers.

(** X1.  A number of seconds up to [2^53] written in decimal is read back
    as that number: [parse_time] of the text of [n] is [n] seconds.  The
    bound is the last one that holds for every number below it: the text of
    [2^53 + 1] is read as [2^53]. *)
Theorem parse_time_seconds_roundtrip (n : nat)
    (Hn : (Z.of_nat n <= 2 ^ 53)%Z) :
  Portrait.parse_time (str_of_nat n) = Some (Fin (inject_Z (Z.of_nat n)))
  /\ Portrait.parse_time "9007199254740993"
     = Some (Fin (inject_Z (2 ^ 53))).
Proof.
  split; [|vm_compute; reflexivity].
  unfold Portrait.parse_time.
  rewrite contains_str_of_nat. now apply float_str_of_small_nat.
Qed.

Lemma parse_time_seconds_roundtrip_witness :
  Portrait.parse_time (str_of_nat 90) = Some (Fin 90).
Proof.
  refine (proj1 (parse_time_seconds_roundtrip 90 _)).
  vm_compute. discriminate.
Defined.

(** X2.  With two fields [m:s] that have no colon inside, [parse_time]
    gives [float(m) * 60 + float(s)] when [float] accepts both and nothing
    otherwise; with three fields [h:m:s] it gives
    [float(h) * 3600 + float(m) * 60 + float(s)] when [float] accepts all
    three and nothing otherwise.  No field is checked against a range. *)
Theorem parse_time_fields (h m s : string)
    (Hh : PyStr.contains ":" h = false)
    (Hm : PyStr.contains ":" m = false)
    (Hs : PyStr.contains ":" s = false) :
  Portrait.parse_time (m ++ ":" ++ s)
  = match PyStr.float m, PyStr.float s with
    | Some a, Some b =>
        Some (PyFloat.add (PyFloat.mul a (PyFloat.of_Z 60)) b)
    | _, _ => None
    end
  /\ Portrait.parse_time (h ++ ":" ++ m ++ ":" ++ s)
     = match PyStr.float h, PyStr.float m, PyStr.float s with
       | Some a, Some b, Some c =>
           Some (PyFloat.add
                   (PyFloat.add (PyFloat.mul a (PyFloat.of_Z 3600))
                                (PyFloat.mul b (PyFloat.of_Z 60)))
                   c)
       | _, _, _ => None
       end.
Proof.
  assert (Hc : forall f rest, PyStr.contains ":" (f ++ ":" ++ rest) = true).
  { intros f rest. rewrite contains_app.
    change (PyStr.contains ":" (":" ++ rest)) with true.
    apply orb_true_r. }
  unfold Portrait.parse_time. rewrite !Hc. split.
  - change (m ++ ":" ++ s) with (m ++ String ":" s).
    rewrite split_first, (split_absent _ _ Hs) by assumption.
    cbn [Portrait.floats].
    destruct (PyStr.float m), (PyStr.float s); reflexivity.
  - change (h ++ ":" ++ m ++ ":" ++ s)
      with (h ++ String ":" (m ++ String ":" s)).
    rewrite split_first, split_first, (split_absent _ _ Hs)
      by assumption.
    cbn [Portrait.floats].
    destruct (PyStr.float h), (PyStr.float m), (PyStr.float s);
      reflexivity.
Qed.

Lemma parse_time_fields_witness :
  Portrait.parse_time ("1" ++ ":" ++ "90") = Some (Fin 150)
  /\ Portrait.parse_time ("x" ++ ":" ++ "1" ++ ":" ++ "90") = None.
Proof.
  destruct (parse_time_fields "x" "1" "90" eq_refl eq_refl eq_refl)
    as [H2 H3].
  split; [exact H2 | exact H3].
Defined.

(** X3.  For natural numbers [h], [m] and [s] written in decimal, with
    [3600 h + 60 m + s] at most [2^53], [parse_time] reads [m:s] as
    [60 m + s] seconds and [h:m:s] as [3600 h + 60 m + s] seconds: no
    product and no sum on the way is rounded. *)
Theorem parse_time_clock_value (h m s : nat)
    (Hbound : (3600 * Z.of_nat h + 60 * Z.of_nat m + Z.of_nat s
               <= 2 ^ 53)%Z) :
  Portrait.parse_time (str_of_nat m ++ ":" ++ str_of_nat s)
  = Some (Fin (inject_Z (60 * Z.of_nat m + Z.of_nat s)))
  /\ Portrait.parse_time
       (str_of_nat h ++ ":" ++ str_of_nat m ++ ":" ++ str_of_nat s)
     = Some (Fin (inject_Z (3600 * Z.of_nat h + 60 * Z.of_nat m
                            + Z.of_nat s))).
Proof.
  assert (Hc : forall f rest, PyStr.contains ":" (f ++ ":" ++ rest) = true).
  { intros f rest. rewrite contains_app.
    change (PyStr.contains ":" (":" ++ rest)) with true.
    apply orb_true_r. }
  unfold Portrait.parse_time. rewrite !Hc. split.
  - change (str_of_nat m ++ ":" ++ str_of_nat s)
      with (str_of_nat m ++ String ":" (str_of_nat s)).
    rewrite split_first, split_absent by apply contains_str_of_nat.
    cbn [Portrait.floats].
    rewrite !float_str_of_small_nat by lia. cbn [option_map].
    rewrite mul_integers, add_integers by lia.
    do 3 f_equal. lia.
  - change (str_of_nat h ++ ":" ++ str_of_nat m ++ ":" ++ str_of_nat s)
      with (str_of_nat h
              ++ String ":" (str_of_nat m ++ String ":" (str_of_nat s))).
    rewrite split_first, split_first, split_absent
      by apply contains_str_of_nat.
    cbn [Portrait.floats].
    rewrite !float_str_of_small_nat by lia. cbn [option_map].
    rewrite !mul_integers, !add_integers by lia.
    do 3 f_equal. lia.
Qed.

Lemma parse_time_clock_value_witness :
  Portrait.parse_time (str_of_nat 5 ++ ":" ++ str_of_nat 7) = Some (Fin 307)
  /\ Portrait.parse_time
       (str_of_nat 1 ++ ":" ++ str_of_nat 5 ++ ":" ++ str_of_nat 7)
     = Some (Fin 3907).
Proof.
  refine (parse_time_clock_value 1 5 7 _).
  vm_compute. discriminate.
Defined.

(** ** Every encoder call stays inside the video *)

Lemma until_failure_incl (ok : SegmentJob -> bool) (jobs : list SegmentJob)
    (j : SegmentJob) :
  In j (until_failure ok jobs) -> In j jobs.
Proof.
  induction jobs as [|k jobs IH]; simpl; [tauto|].
  intros [H | H]; [now left|].
  destruct (ok k); [right; now apply IH | contradiction].
Qed.

Lemma all_gaps_ends (g : Q * Q) (pts : list Q) :
  In g (all_gaps pts) ->
  In (fst g) pts /\ exists e, In e pts /\ snd g = e - fst g.
Proof.
  induction pts as [|a pts IH]; [intros []|].
  destruct pts as [|b pts]; [intros []|].
  change (all_gaps (a :: b :: pts))
    with ((a, b - a) :: all_gaps (b :: pts)).
  intros [<- | H].
  - split; [now left|]. exists b. split; [right; now left | reflexivity].
  - destruct (IH H) as (H1 & e & He & Hg).
    split; [now right|]. exists e. split; [now right | assumption].
Qed.

(** For a duration that is not negative, every cut point lies between zero
    and the duration. *)
Lemma cut_points_within (cuts : list pyfloat) (D : Q) :
  0 <= D -> Forall (fun p => 0 <= p /\ p <= D) (Portrait.cut_points cuts D).
Proof.
  intro HD. rewrite cut_points_bracketed by assumption.
  constructor; [split; [apply Qle_refl | assumption]|].
  apply Forall_app. split.
  - rewrite sorted_perm. eapply Forall_impl; [|apply kept_inside].
    intros q [H1 H2]. split; now apply Qlt_le_weak.
  - constructor; [|constructor]. split; [assumption | apply Qle_refl].
Qed.

Lemma custom_segments_within (cuts : list pyfloat) (D : Q) :
  0 <= D ->
  Forall (fun s => 0 <= fst s /\ fst s < D /\ Float64.tenth < snd s
                   /\ exists e, fst s < e /\ e <= D
                                /\ snd s = Float64.sub e (fst s))
         (Portrait.custom_segments cuts D).
Proof.
  intro HD. unfold Portrait.custom_segments. rewrite segments_of_filter.
  apply Forall_forall. intros s Hs.
  apply in_map_iff in Hs as (g & <- & Hg).
  apply filter_In in Hg as [Hg Hlong].
  destruct (all_gaps_ends _ _ Hg) as (Hs & e & He & Hlen).
  pose proof (cut_points_within cuts D HD) as Hw.
  rewrite Forall_forall in Hw.
  destruct (Hw _ Hs) as [Hs0 _]. destruct (Hw _ He) as [_ HeD].
  destruct (all_gaps_ordered _ (cut_points_ascending cuts D)) as [Hnn _].
  rewrite Forall_forall in Hnn.
  pose proof (long_enough_positive g (Hnn _ Hg) Hlong) as Hpos.
  rewrite Hlen in Hpos.
  assert (Hlt : fst g < e) by lra.
  cbn [as_computed fst snd]. split; [exact Hs0|].
  split; [lra|]. split; [now apply Qltb_lt|].
  exists e. split; [exact Hlt|]. split; [exact HeD|].
  unfold Float64.sub. now rewrite Hlen.
Qed.

(** X4.  In the custom mode of the Portrait script, on a video whose
    probed duration [D] is not negative, every call of the encoder starts
    at or after zero and before [D]; its length is what the float
    subtraction gives for the stretch from its start to a later point that
    is at most [D], and is greater than the float [0.1]. *)
Theorem custom_jobs_within_duration (env : Env) (args : Portrait.Args)
    (D : Q)
    (Hbin : ffmpeg_present env = true)
    (Hfile : is_file env (Portrait.input_video args) = true)
    (Hopt : Portrait.split_option args = "custom")
    (Hprobe : probe env (Portrait.input_video args) = Some D)
    (HD : 0 <= D) :
  Forall (fun j => 0 <= job_start j /\ job_start j < D
                   /\ Float64.tenth < job_length j
                   /\ exists e, job_start j < e /\ e <= D
                                /\ job_length j
                                   = Float64.sub e (job_start j))
         (encodes (Portrait.main env args)).
Proof.
  destruct (Portrait.split_times args) as [[|t0 ts0]|] eqn:Hts.
  1, 3: rewrite (main_no_times env args Hbin Hfile Hopt) by auto;
        constructor.
  set (ts := t0 :: ts0) in *.
  assert (Hne : ts <> []) by discriminate.
  destruct (Portrait.parse_all ts) as [bad|pts] eqn:Hp.
  { rewrite (main_bad_time env args Hbin Hfile Hopt ts bad Hts Hne Hp).
    constructor. }
  destruct (Qeq_dec D 0) as [Hz|Hz].
  { rewrite (main_zero_duration env args Hbin Hfile Hopt ts pts D
               Hts Hne Hp Hprobe Hz). constructor. }
  rewrite (Portrait_main_custom_encodes env args ts pts D);
    try assumption; [|rewrite Hopt; reflexivity].
  apply Forall_forall. intros j Hj. apply until_failure_incl in Hj.
  apply (in_map job_span) in Hj. rewrite custom_jobs_spans in Hj.
  pose proof (custom_segments_within pts D HD) as Hw.
  rewrite Forall_forall in Hw. exact (Hw _ Hj).
Qed.

Lemma custom_jobs_within_duration_witness :
  Forall (fun j => 0 <= job_start j /\ job_start j < 100
                   /\ Float64.tenth < job_length j
                   /\ exists e, job_start j < e /\ e <= 100
                                /\ job_length j
                                   = Float64.sub e (job_start j))
         (encodes (Portrait.main (sample_env (Some 100) (fun _ => true))
                     (portrait_args "custom" (Some ["90"; "0:30"; "250"])
                                    "original"))).
Proof.
  apply (custom_jobs_within_duration
           (sample_env (Some 100) (fun _ => true))
           (portrait_args "custom" (Some ["90"; "0:30"; "250"]) "original")
           100); try reflexivity.
  discriminate.
Defined.

(** X5.  In the 60-second mode of the FullScreen script, every call of the
    encoder starts at or after zero, has a length above zero and at most
    60, and ends at or before the probed duration [D]; no call is made
    exactly when [D] is zero or negative. *)
Theorem FullScreen_jobs_within_duration (env : Env)
    (args : FullScreen.Args) (D : Q)
    (Hbin : ffmpeg_present env && ffprobe_present env = true)
    (Hfile : is_file env (FullScreen.input args) = true)
    (Hopt : FullScreen.split_option args = "60")
    (Hprobe : probe env (FullScreen.input args) = Some D) :
  Forall (fun j => 0 <= job_start j
                   /\ 0 < job_length j /\ job_length j <= 60
                   /\ job_start j + job_length j <= D)
         (encodes (FullScreen.main env args))
  /\ (encodes (FullScreen.main env args) = [] <-> D <= 0).
Proof.
  rewrite (FullScreen_main_fixed_encodes env args D) by assumption.
  unfold FullScreen.fixed_jobs, range.
  pose proof (segment_count_bounds D) as [Hlo Hhi].
  split.
  - apply Forall_forall. intros j Hj.
    apply in_map_iff in Hj as (i & <- & Hi). apply in_seq in Hi.
    unfold FullScreen.fixed_job, FullScreen.segment_job,
      FullScreen.fixed_segment. cbn [job_start job_length fst snd].
    assert (Hpos : (0 < segment_count D)%Z) by lia.
    assert (Hi' : inject_Z (Z.of_nat i) + 1 <= inject_Z (segment_count D)).
    { rewrite <- inject_Z_succ, <- Zle_Qle. lia. }
    assert (H0 : 0 <= inject_Z (Z.of_nat i)).
    { change 0 with (inject_Z 0). rewrite <- Zle_Qle. lia. }
    pose proof (start_of_iteration i) as Hst.
    set (st := inject_Z (Z.of_nat i * 60)) in *.
    unfold FullScreen.min60. destruct (Qltb (D - st) 60) eqn:E.
    + apply Qltb_lt in E. repeat split; lra.
    + apply Qltb_ge in E. repeat split; lra.
  - destruct (Z.to_nat (segment_count D)) as [|n] eqn:En; simpl.
    + split; [intros _ | reflexivity].
      assert (segment_count D <= 0)%Z by lia.
      assert (inject_Z (segment_count D) <= 0).
      { change 0 with (inject_Z 0). now rewrite <- Zle_Qle. }
      lra.
    + split; [discriminate|]. intro HD. exfalso.
      assert (Hpos : (0 < segment_count D)%Z) by lia.
      assert (1 <= inject_Z (segment_count D)).
      { change 1 with (inject_Z 1). rewrite <- Zle_Qle. lia. }
      lra.
Qed.

Lemma FullScreen_jobs_within_duration_witness :
  Forall (fun j => 0 <= job_start j
                   /\ 0 < job_length j /\ job_length j <= 60
                   /\ job_start j + job_length j <= 125)
         (encodes (FullScreen.main (sample_env (Some 125) (fun _ => false))
                     (fullscreen_args "60" "crop" None))).
Proof.
  apply (FullScreen_jobs_within_duration
           (sample_env (Some 125) (fun _ => false))
           (fullscreen_args "60" "crop" None) 125); reflexivity.
Defined.

(** ** A whole number of minutes *)

Lemma segment_count_minutes (k : nat) :
  segment_count (inject_Z (Z.of_nat k * 60)) = Z.of_nat k.
Proof.
  pose proof (start_of_iteration k) as Hk.
  assert (Hf : floordiv60 (inject_Z (Z.of_nat k * 60)) = Z.of_nat k).
  { unfold floordiv60. apply Qfloor_unique.
    - setoid_replace (inject_Z (Z.of_nat k * 60) / 60)
        with (inject_Z (Z.of_nat k)) by (rewrite Hk; field).
      apply Qle_refl.
    - setoid_replace (inject_Z (Z.of_nat k * 60) / 60)
        with (inject_Z (Z.of_nat k)) by (rewrite Hk; field).
      rewrite inject_Z_succ. lra. }
  unfold segment_count, mod60. rewrite Hf.
  assert (E : Qltb 0 (inject_Z (Z.of_nat k * 60)
                      - 60 * inject_Z (Z.of_nat k)) = false)
    by (apply Qltb_ge; lra).
  rewrite E. lia.
Qed.

(** X6.  On a video of exactly [k] minutes the 60-second loop runs [k]
    times, never a further time for an empty rest: the FullScreen script
    plans [k] segments of exactly 60 seconds, and the Portrait script asks
    for the same starts and lengths. *)
Theorem whole_minutes_plan (env : Env) (folder base aspect : string)
    (k : nat) :
  let D := inject_Z (Z.of_nat k * 60) in
  segment_count D = Z.of_nat k
  /\ FullScreen.fixed_plan D
     = map (fun i => (inject_Z (Z.of_nat i * 60), 60)) (seq 0 k)
  /\ map job_span (Portrait.fixed_jobs env folder base aspect D)
     = FullScreen.fixed_plan D.
Proof.
  cbv zeta.
  assert (Hplan : FullScreen.fixed_plan (inject_Z (Z.of_nat k * 60))
                  = map (fun i => (inject_Z (Z.of_nat i * 60), 60))
                        (seq 0 k)).
  { unfold FullScreen.fixed_plan, range.
    rewrite segment_count_minutes, Nat2Z.id.
    apply map_ext_in. intros i Hi. apply in_seq in Hi.
    unfold FullScreen.fixed_segment. f_equal.
    apply min60_full.
    pose proof (start_of_iteration k) as Hk.
    pose proof (start_of_iteration i) as Hi'.
    assert (inject_Z (Z.of_nat i) + 1 <= inject_Z (Z.of_nat k)).
    { rewrite <- inject_Z_succ, <- Zle_Qle. lia. }
    lra. }
  split; [apply segment_count_minutes|]. split; [exact Hplan|].
  rewrite Hplan. unfold Portrait.fixed_jobs, range.
  rewrite segment_count_minutes, Nat2Z.id, map_map. reflexivity.
Qed.

(** ** What a run reports at its end *)

Section Outcome.

Variable env : Env.

Lemma reports_success_app (a b : list Event) :
  reports_success (a ++ b) = reports_success a || reports_success b.
Proof. apply existsb_app. Qed.

Lemma Portrait_fixed_loop_outcome (jobs : list SegmentJob) :
  reports_success (fst (Portrait.fixed_loop env jobs)) = false
  /\ (snd (Portrait.fixed_loop env jobs) = true ->
      errors (fst (Portrait.fixed_loop env jobs)) = []
      /\ encodes (fst (Portrait.fixed_loop env jobs)) = jobs
      /\ Forall (fun j => encode_ok env j = true) jobs)
  /\ (snd (Portrait.fixed_loop env jobs) = false ->
      errors (fst (Portrait.fixed_loop env jobs)) = [FFmpegError]).
Proof.
  induction jobs as [|j jobs IH]; simpl.
  - repeat split; (discriminate || constructor).
  - unfold Portrait.split_video_segment.
    destruct (encode_ok env j) eqn:Hj; simpl.
    + destruct (Portrait.fixed_loop env jobs) as [evs done]. simpl in *.
      destruct IH as (H1 & H2 & H3). split; [exact H1|]. split.
      * intro Hd. destruct (H2 Hd) as (E1 & E2 & E3).
        repeat split; [assumption | now rewrite E2 | now constructor].
      * exact H3.
    + repeat split; discriminate.
Qed.

Lemma Portrait_custom_loop_outcome (folder base aspect : string)
    (segs : list (Q * Q)) (idx : nat) :
  let evs := Portrait.custom_loop env folder base aspect idx segs in
  let jobs := Portrait.custom_jobs env folder base aspect idx segs in
  (reports_success evs = true ->
   errors evs = [] /\ encodes evs = jobs
   /\ Forall (fun j => encode_ok env j = true) jobs)
  /\ (reports_success evs = false -> errors evs = [FFmpegError]).
Proof.
  cbv zeta. revert idx.
  induction segs as [|seg segs IH]; intro idx; simpl.
  - repeat split; (discriminate || constructor).
  - unfold Portrait.split_video_segment.
    destruct (encode_ok env _) eqn:Hj; simpl.
    + destruct (IH (S idx)) as [H1 H2]. split.
      * intro Hs. destruct (H1 Hs) as (E1 & E2 & E3).
        repeat split; [assumption | now rewrite E2 | now constructor].
      * exact H2.
    + split; [discriminate | reflexivity].
Qed.

End Outcome.

(** X7.  The Portrait script reports success only after success: if a run
    prints one of its closing lines (segments created by stream copy, the
    60-second segments created, all custom segments created), then it
    printed no error line and every encoder call it made succeeded. *)
Theorem Portrait_success_is_truthful (env : Env) (args : Portrait.Args)
    (Hs : reports_success (Portrait.main env args) = true) :
  errors (Portrait.main env args) = []
  /\ Forall (fun j => encode_ok env j = true)
            (encodes (Portrait.main env args)).
Proof.
  revert Hs. unfold Portrait.main.
  destruct (ffmpeg_present env); [|discriminate].
  destruct (is_file env (Portrait.input_video args)); [|discriminate].
  cbn [negb]. cbv zeta.
  set (base := base_name_of env (Portrait.input_video args)).
  set (folder := path_join env (Portrait.output_dir args) base).
  destruct (String.eqb (Portrait.split_option args) "60").
  - unfold Portrait.main_fixed, Portrait.get_video_duration.
    destruct (String.eqb (Portrait.aspect args) "original").
    + destruct (mux_ok env); [|discriminate].
      intros _. split; [reflexivity | constructor].
    + destruct (probe env (Portrait.input_video args)) as [d|];
        [|discriminate].
      destruct (Qeq_bool d 0); [discriminate|].
      pose proof (Portrait_fixed_loop_outcome env
                    (Portrait.fixed_jobs env folder base
                       (Portrait.aspect args) d)) as (H1 & H2 & H3).
      destruct (Portrait.fixed_loop env _) as [evs done].
      cbn [fst snd] in *. cbn [app].
      destruct done.
      * intros _. destruct (H2 eq_refl) as (E1 & E2 & E3).
        cbn [errors encodes is_error].
        rewrite errors_app, encodes_app, E1, E2. cbn.
        rewrite app_nil_r. split; [reflexivity | assumption].
      * cbn [reports_success existsb is_success orb].
        fold (reports_success (evs ++ [])).
        rewrite reports_success_app, H1. discriminate.
  - unfold Portrait.main_custom, Portrait.get_video_duration.
    destruct (Portrait.split_times args) as [[|t ts]|]; try discriminate.
    destruct (Portrait.parse_all (t :: ts)) as [bad|pts]; [discriminate|].
    destruct (probe env (Portrait.input_video args)) as [d|];
      [|discriminate].
    destruct (Qeq_bool d 0); [discriminate|].
    destruct (Portrait.custom_segments pts d) as [|seg segs];
      [discriminate|].
    pose proof (Portrait_custom_loop_outcome env folder base
                  (Portrait.aspect args) (seg :: segs) 1) as [H1 _].
    cbv zeta in H1. cbn [app].
    cbn [reports_success existsb is_success orb errors encodes is_error].
    fold (reports_success
            (Portrait.custom_loop env folder base (Portrait.aspect args) 1
               (seg :: segs))).
    intro Hs. destruct (H1 Hs) as (E1 & E2 & E3).
    rewrite E1, E2. split; [reflexivity | assumption].
Qed.

Lemma Portrait_success_is_truthful_witness :
  errors (Portrait.main (sample_env (Some 125) (fun _ => true))
            (portrait_args "60" None "landscape")) = [].
Proof.
  apply (Portrait_success_is_truthful
           (sample_env (Some 125) (fun _ => true))
           (portrait_args "60" None "landscape")).
  reflexivity.
Defined.

Lemma FullScreen_steps_errors (env : Env) (args : FullScreen.Args)
    (folder base : string) (d : Q) (l : list nat) :
  errors (flat_map (FullScreen.fixed_step env args folder base d) l)
  = map (fun _ => ErrorProcessingSegment)
        (filter (fun j => negb (encode_ok env j))
                (map (FullScreen.fixed_job env args folder base d) l)).
Proof.
  induction l as [|i l IH]; [reflexivity|].
  cbn [flat_map map filter]. rewrite errors_app, IH.
  unfold FullScreen.fixed_step, FullScreen.process_segment.
  destruct (encode_ok env _); reflexivity.
Qed.

(** X8.  In the 60-second mode of the FullScreen script, once the prober
    has answered, the run prints one error line for each encoder call that
    failed, in order, and still ends with the line that processing is
    completed, whatever failed. *)
Theorem FullScreen_reports_every_failure (env : Env)
    (args : FullScreen.Args) (d : Q)
    (Hbin : ffmpeg_present env && ffprobe_present env = true)
    (Hfile : is_file env (FullScreen.input args) = true)
    (Hopt : FullScreen.split_option args = "60")
    (Hprobe : probe env (FullScreen.input args) = Some d) :
  errors (FullScreen.main env args)
  = map (fun _ => ErrorProcessingSegment)
        (filter (fun j => negb (encode_ok env j))
                (encodes (FullScreen.main env args)))
  /\ last (FullScreen.main env args) (Exit 0) = Print ProcessingCompleted.
Proof.
  rewrite (FullScreen_main_fixed_encodes env args d) by assumption.
  unfold FullScreen.main, FullScreen.get_video_duration.
  rewrite Hbin, Hfile, Hopt, Hprobe. cbn [negb app]. cbv zeta.
  change (String.eqb "60" "60") with true. cbv iota.
  split.
  - cbn [errors is_error]. rewrite errors_app, FullScreen_steps_errors.
    cbn [errors is_error]. now rewrite app_nil_r.
  - rewrite !app_comm_cons. apply last_last.
Qed.

Lemma FullScreen_reports_every_failure_witness :
  errors (FullScreen.main
            (sample_env (Some 125)
               (fun j => Qeq_bool (job_start j) 60))
            (fullscreen_args "60" "pad" None))
  = map (fun _ => ErrorProcessingSegment)
        (filter (fun j => negb (Qeq_bool (job_start j) 60))
                (encodes (FullScreen.main
                            (sample_env (Some 125)
                               (fun j => Qeq_bool (job_start j) 60))
                            (fullscreen_args "60" "pad" None))))
  /\ last (FullScreen.main
             (sample_env (Some 125)
                (fun j => Qeq_bool (job_start j) 60))
             (fullscreen_args "60" "pad" None)) (Exit 0)
     = Print ProcessingCompleted.
Proof.
  apply (FullScreen_reports_every_failure
           (sample_env (Some 125) (fun j => Qeq_bool (job_start j) 60))
           (fullscreen_args "60" "pad" None) 125); reflexivity.
Defined.

(** ** When the video stream is copied *)

Lemma truthy_scale_graph (rest : string) (l : list string) :
  truthy (Some (PyStr.join "," (("scale=" ++ rest) :: l)))
  = Some (PyStr.join "," (("scale=" ++ rest) :: l)).
Proof. destruct l; reflexivity. Qed.

(** X9.  A job copies the video stream exactly when no aspect conversion
    is asked for: in the FullScreen script when the aspect handling is none
    of [crop], [pad] and [stretch], in the Portrait script when the aspect
    is neither [portrait] nor [landscape].  Otherwise the job carries the
    filter graph that [build_filters] or [build_aspect_filter] returned,
    which is never the empty text. *)
Theorem stream_copy_iff (args : FullScreen.Args) (aspect out : string)
    (start len : Q) :
  (job_filter (FullScreen.segment_job args out start len) = None
   <-> FullScreen.aspect_handling args <> "crop"
       /\ FullScreen.aspect_handling args <> "pad"
       /\ FullScreen.aspect_handling args <> "stretch")
  /\ job_filter (FullScreen.segment_job args out start len)
     = FullScreen.build_filters args
  /\ (job_filter (Portrait.segment_job out start len aspect) = None
      <-> aspect <> "portrait" /\ aspect <> "landscape")
  /\ job_filter (Portrait.segment_job out start len aspect)
     = Portrait.build_aspect_filter aspect.
Proof.
  assert (HF : truthy (FullScreen.build_filters args)
               = FullScreen.build_filters args
               /\ (FullScreen.build_filters args = None
                   <-> FullScreen.aspect_handling args <> "crop"
                       /\ FullScreen.aspect_handling args <> "pad"
                       /\ FullScreen.aspect_handling args <> "stretch")).
  { unfold FullScreen.build_filters, FullScreen.filter_stages,
      FullScreen.aspect_stages.
    destruct (String.eqb_spec (FullScreen.aspect_handling args) "crop")
      as [Hc|Hc].
    { split.
      - cbn [option_map app]. apply truthy_scale_graph.
      - split; [discriminate | intros (H & _); contradiction]. }
    destruct (String.eqb_spec (FullScreen.aspect_handling args) "pad")
      as [Hp|Hp].
    { split.
      - cbn [option_map app]. apply truthy_scale_graph.
      - split; [discriminate | intros (_ & H & _); contradiction]. }
    destruct (String.eqb_spec (FullScreen.aspect_handling args) "stretch")
      as [Hs|Hs].
    { split.
      - cbn [option_map app]. apply truthy_scale_graph.
      - split; [discriminate | intros (_ & _ & H); contradiction]. }
    split; [reflexivity | split; auto]. }
  assert (HP : truthy (Portrait.build_aspect_filter aspect)
               = Portrait.build_aspect_filter aspect
               /\ (Portrait.build_aspect_filter aspect = None
                   <-> aspect <> "portrait" /\ aspect <> "landscape")).
  { unfold Portrait.build_aspect_filter.
    destruct (String.eqb_spec aspect "portrait") as [H1|H1].
    { split; [reflexivity|].
      split; [discriminate | intros (H & _); contradiction]. }
    destruct (String.eqb_spec aspect "landscape") as [H2|H2].
    { split; [reflexivity|].
      split; [discriminate | intros (_ & H); contradiction]. }
    split; [reflexivity | split; auto]. }
  destruct HF as [HF1 HF2], HP as [HP1 HP2].
  unfold FullScreen.segment_job, Portrait.segment_job. cbn [job_filter].
  rewrite HF1, HP1.
  split; [exact HF2|]. split; [reflexivity|].
  split; [exact HP2 | reflexivity].
Qed.

(** X10.  For the handling [pad] with a black background and no text, the
    FullScreen script builds, for [portrait] and for [landscape], the very
    filter graph that the Portrait script builds for that aspect. *)
Theorem pad_graphs_agree (args : FullScreen.Args)
    (Hmode : FullScreen.aspect_mode args = "portrait"
             \/ FullScreen.aspect_mode args = "landscape")
    (Hpad : FullScreen.aspect_handling args = "pad")
    (Hbg : truthy (FullScreen.background args) = None
           \/ FullScreen.background args = Some "black")
    (Htext : truthy (FullScreen.text args) = None) :
  FullScreen.build_filters args
  = Portrait.build_aspect_filter (FullScreen.aspect_mode args).
Proof.
  assert (Hcol : match truthy (FullScreen.background args) with
                 | Some b => b
                 | None => "black"
                 end = "black").
  { destruct Hbg as [-> | ->]; reflexivity. }
  unfold FullScreen.build_filters, FullScreen.filter_stages,
    FullScreen.aspect_stages, FullScreen.text_stages,
    FullScreen.target_width, FullScreen.target_height,
    Portrait.build_aspect_filter.
  rewrite Hpad, Htext, Hcol.
  destruct Hmode as [-> | ->]; reflexivity.
Qed.

Lemma pad_graphs_agree_witness :
  FullScreen.build_filters
    (FullScreen.mkArgs "in.mp4" "60" None "output" "landscape" "pad" None
       (Some "") 48 (Some "red") (Some "font.ttf"))
  = Portrait.build_aspect_filter "landscape".
Proof.
  apply (pad_graphs_agree
           (FullScreen.mkArgs "in.mp4" "60" None "output" "landscape" "pad"
              None (Some "") 48 (Some "red") (Some "font.ttf")));
    [right | | left | ]; reflexivity.
Defined.

(** ** Split times that cannot be used *)

Lemma parse_all_first_bad (pre post : list string) (bad : string) :
  Forall (fun t => Portrait.parse_time t <> None) pre ->
  Portrait.parse_time bad = None ->
  Portrait.parse_all (pre ++ bad :: post)%list = inl bad.
Proof.
  intros Hpre Hbad. induction Hpre as [|t pre Ht Hpre IH]; simpl.
  - now rewrite Hbad.
  - destruct (Portrait.parse_time t); [|contradiction]. now rewrite IH.
Qed.

(** X11.  In the custom mode of the Portrait script the split times are
    read in the order given, before the video is probed: the run stops at
    the first one that [parse_time] rejects, names it in the error line and
    does nothing else, whatever the later times and the prober would
    give. *)
Theorem first_invalid_time_reported (env : Env) (args : Portrait.Args)
    (pre post : list string) (bad : string)
    (Hbin : ffmpeg_present env = true)
    (Hfile : is_file env (Portrait.input_video args) = true)
    (Hopt : Portrait.split_option args = "custom")
    (Hts : Portrait.split_times args = Some (pre ++ bad :: post)%list)
    (Hpre : Forall (fun t => Portrait.parse_time t <> None) pre)
    (Hbad : Portrait.parse_time bad = None) :
  Portrait.main env args
  = [MakeDirs (path_join env (Portrait.output_dir args)
                 (base_name_of env (Portrait.input_video args)));
     Print (InvalidTimeFormat bad)].
Proof.
  apply (main_bad_time env args Hbin Hfile Hopt (pre ++ bad :: post)%list bad Hts).
  - destruct pre; discriminate.
  - now apply parse_all_first_bad.
Qed.

Lemma first_invalid_time_reported_witness :
  Portrait.main (sample_env None (fun _ => true))
    (portrait_args "custom" (Some (["10"; "0:20"] ++ "1:2:3:4" :: ["x"])%list)
                   "portrait")
  = [MakeDirs "output/in"; Print (InvalidTimeFormat "1:2:3:4")].
Proof.
  apply (first_invalid_time_reported (sample_env None (fun _ => true))
           (portrait_args "custom"
              (Some (["10"; "0:20"] ++ "1:2:3:4" :: ["x"])%list) "portrait")
           ["10"; "0:20"] ["x"] "1:2:3:4");
    try reflexivity.
  repeat constructor; discriminate.
Defined.

Lemma filter_none {A : Type} (f : A -> bool) (l : list A) :
  Forall (fun x => f x = false) l -> filter f l = [].
Proof.
  induction 1 as [|x l Hx Hl IH]; simpl; [reflexivity|].
  now rewrite Hx.
Qed.

(** X12.  In the custom mode of the Portrait script, when none of the
    given times lies strictly between zero and the probed duration [D]
    (all are zero, negative, at or past the end, or not finite) and [D], a
    double, is greater than the float [0.1], the run makes exactly one
    encoder call, for the whole video: from zero, for [D] seconds. *)
Theorem no_cut_inside_whole_video (env : Env) (args : Portrait.Args)
    (ts : list string) (pts : list pyfloat) (D : Q)
    (Hbin : ffmpeg_present env = true)
    (Hfile : is_file env (Portrait.input_video args) = true)
    (Hopt : Portrait.split_option args = "custom")
    (Hts : Portrait.split_times args = Some ts)
    (Hne : ts <> [])
    (Hparse : Portrait.parse_all ts = inr pts)
    (Hprobe : probe env (Portrait.input_video args) = Some D)
    (Hdouble : is_double D)
    (HD : Float64.tenth < D)
    (Hout : Forall (fun p => Portrait.between D p = false) pts) :
  map job_span (encodes (Portrait.main env args)) = [(0, D)].
Proof.
  pose proof tenth_above as Ht.
  assert (Hz : ~ D == 0) by lra.
  rewrite (Portrait_main_custom_encodes env args ts pts D);
    try assumption; [|rewrite Hopt; reflexivity].
  assert (Hsub : Float64.sub D 0 = D).
  { unfold Float64.sub. rewrite (round_q_compat (D - 0) D) by ring.
    exact Hdouble. }
  assert (Hseg : Portrait.custom_segments pts D = [(0, D)]).
  { unfold Portrait.custom_segments, Portrait.cut_points.
    rewrite (filter_none _ _ Hout). simpl.
    assert (E : Qltb D 0 = false) by (apply Qltb_ge; lra).
    rewrite E. cbn [Portrait.segments_of]. rewrite Hsub.
    assert (E' : Qltb Float64.tenth D = true) by now apply Qltb_lt.
    now rewrite E'. }
  rewrite Hseg. simpl. destruct (encode_ok env _); reflexivity.
Qed.

Lemma no_cut_inside_whole_video_witness :
  map job_span
    (encodes (Portrait.main (sample_env (Some 100) (fun _ => true))
                (portrait_args "custom" (Some ["0"; "100"; "2:00"; "nan"])
                               "original")))
  = [(0, 100)].
Proof.
  apply (no_cut_inside_whole_video
           (sample_env (Some 100) (fun _ => true))
           (portrait_args "custom" (Some ["0"; "100"; "2:00"; "nan"])
                          "original")
           ["0"; "100"; "2:00"; "nan"]
           [Fin 0; Fin 100; Fin 120; NaN] 100);
    try reflexivity.
  - discriminate.
  - repeat constructor.
Defined.

Lemma parse_all_length (ts : list string) (pts : list pyfloat) :
  Portrait.parse_all ts = inr pts -> List.length pts = List.length ts.
Proof.
  revert pts. induction ts as [|t ts IH]; simpl; intros pts H.
  - injection H as <-. reflexivity.
  - destruct (Portrait.parse_time t); [|discriminate].
    destruct (Portrait.parse_all ts) as [bad|ps]; [discriminate|].
    injection H as <-. simpl. f_equal. now apply IH.
Qed.

Lemma segments_of_length (pts : list Q) :
  (List.length (Portrait.segments_of pts) <= List.length pts - 1)%nat.
Proof.
  induction pts as [|a pts IH]; [simpl; lia|].
  destruct pts as [|b pts]; [simpl; lia|].
  change (Portrait.segments_of (a :: b :: pts))
    with (if long_enough (a, b - a)
          then as_computed (a, b - a) :: Portrait.segments_of (b :: pts)
          else Portrait.segments_of (b :: pts)).
  set (r := Portrait.segments_of (b :: pts)) in *.
  cbn [List.length] in *.
  destruct (long_enough (a, b - a)); cbn [List.length]; lia.
Qed.

Lemma finite_values_length (l : list pyfloat) :
  (List.length (Portrait.finite_values l) <= List.length l)%nat.
Proof.
  induction l as [|[q| | |] l IH]; simpl; lia.
Qed.

Lemma custom_segments_length (cuts : list pyfloat) (D : Q) :
  (List.length (Portrait.custom_segments cuts D) <= List.length cuts + 1)%nat.
Proof.
  unfold Portrait.custom_segments, Portrait.cut_points.
  set (kept := Portrait.finite_values (filter (Portrait.between D) cuts)).
  set (l := ((0 :: kept) ++ [D])%list).
  pose proof (segments_of_length (sorted l)) as H.
  rewrite (Permutation_length (sorted_perm l)) in H.
  assert (Hl : List.length l = (List.length kept + 2)%nat).
  { unfold l. rewrite length_app. simpl. lia. }
  pose proof (finite_values_length (filter (Portrait.between D) cuts)).
  pose proof (filter_length_le (Portrait.between D) cuts).
  fold kept in H0. lia.
Qed.

Lemma until_failure_length (ok : SegmentJob -> bool)
    (jobs : list SegmentJob) :
  (List.length (until_failure ok jobs) <= List.length jobs)%nat.
Proof.
  induction jobs as [|j jobs IH]; simpl; [lia|].
  destruct (ok j); simpl; lia.
Qed.

(** X13.  In the custom mode of the Portrait script a run with [n] split
    times makes at most [n + 1] encoder calls. *)
Theorem custom_jobs_bound (env : Env) (args : Portrait.Args)
    (ts : list string)
    (Hbin : ffmpeg_present env = true)
    (Hfile : is_file env (Portrait.input_video args) = true)
    (Hopt : Portrait.split_option args = "custom")
    (Hts : Portrait.split_times args = Some ts) :
  (List.length (encodes (Portrait.main env args)) <= List.length ts + 1)%nat.
Proof.
  destruct ts as [|t0 ts0].
  { rewrite (main_no_times env args Hbin Hfile Hopt) by auto. simpl. lia. }
  set (ts := t0 :: ts0) in *.
  assert (Hne : ts <> []) by discriminate.
  destruct (Portrait.parse_all ts) as [bad|pts] eqn:Hp.
  { rewrite (main_bad_time env args Hbin Hfile Hopt ts bad Hts Hne Hp).
    simpl. lia. }
  destruct (probe env (Portrait.input_video args)) as [d|] eqn:Hpr.
  2: { rewrite (main_probe_failed env args Hbin Hfile Hopt ts pts
                  Hts Hne Hp Hpr). simpl. lia. }
  destruct (Qeq_dec d 0) as [Hz|Hz].
  { rewrite (main_zero_duration env args Hbin Hfile Hopt ts pts d
               Hts Hne Hp Hpr Hz). simpl. lia. }
  rewrite (Portrait_main_custom_encodes env args ts pts d);
    try assumption; [|rewrite Hopt; reflexivity].
  pose proof (until_failure_length (encode_ok env)
                (Portrait.custom_jobs env
                   (path_join env (Portrait.output_dir args)
                      (base_name_of env (Portrait.input_video args)))
                   (base_name_of env (Portrait.input_video args))
                   (Portrait.aspect args) 1
                   (Portrait.custom_segments pts d))) as H1.
  rewrite <- (length_map job_span
                (Portrait.custom_jobs _ _ _ _ _ _)) in H1.
  rewrite custom_jobs_spans in H1.
  pose proof (custom_segments_length pts d) as H2.
  rewrite (parse_all_length ts pts Hp) in H2. lia.
Qed.

Lemma custom_jobs_bound_witness :
  (List.length
     (encodes (Portrait.main (sample_env (Some 100%Q) (fun _ => true))
                 (portrait_args "custom" (Some ["30"; "60"]) "original")))
   <= List.length ["30"; "60"] + 1)%nat.
Proof.
  apply (custom_jobs_bound (sample_env (Some 100) (fun _ => true))
           (portrait_args "custom" (Some ["30"; "60"]) "original")
           ["30"; "60"]); reflexivity.
Defined.

(** ** Output files of a run *)

Section OutputNames.

Import PyStr.

Lemma digits_val_zero (l : list ascii) :
  digits_val ("0"%char :: l) = digits_val l.
Proof. reflexivity. Qed.

(** The zero-padded index is read back as the index. *)
Lemma pad3_value (n : nat) : digits_val (chars (pad3 n)) = Z.of_nat n.
Proof.
  destruct (str_of_nat_digits n) as (_ & _ & Hv).
  unfold pad3.
  destruct (String.length (str_of_nat n)) as [|[|[|k]]];
    rewrite ?chars_app; cbn [chars list_ascii_of_string app];
    rewrite ?digits_val_zero; exact Hv.
Qed.

Lemma pad3_inj (n m : nat) : pad3 n = pad3 m -> n = m.
Proof.
  intro H. apply Nat2Z.inj. rewrite <- !pad3_value. now rewrite H.
Qed.

Lemma str_of_nat_inj (n m : nat) : str_of_nat n = str_of_nat m -> n = m.
Proof.
  intro H. apply Nat2Z.inj.
  destruct (str_of_nat_digits n) as (_ & _ & <-).
  destruct (str_of_nat_digits m) as (_ & _ & <-). now rewrite H.
Qed.

Lemma append_inv_head (s a b : string) : s ++ a = s ++ b -> a = b.
Proof.
  induction s as [|c s IH]; simpl; intro H; [exact H|].
  injection H as H. now apply IH.
Qed.

Lemma append_inv_tail (s a b : string) : a ++ s = b ++ s -> a = b.
Proof.
  intro H. apply (f_equal chars) in H. rewrite !chars_app in H.
  apply app_inv_tail in H.
  rewrite <- (of_chars_chars a), <- (of_chars_chars b). now rewrite H.
Qed.

Lemma fixed_name_inj (base : string) (i j : nat) :
  base ++ "_" ++ pad3 (i + 1) ++ ".mp4" = base ++ "_" ++ pad3 (j + 1) ++ ".mp4"
  -> i = j.
Proof.
  intro H. do 2 apply append_inv_head in H. apply append_inv_tail in H.
  apply pad3_inj in H. lia.
Qed.

Lemma custom_name_inj (base : string) (i j : nat) :
  base ++ "_part" ++ str_of_nat i ++ ".mp4"
  = base ++ "_part" ++ str_of_nat j ++ ".mp4"
  -> i = j.
Proof.
  intro H. do 2 apply append_inv_head in H. apply append_inv_tail in H.
  now apply str_of_nat_inj.
Qed.

Lemma NoDup_map_seq {A : Type} (f : nat -> A) (start len : nat) :
  (forall i j, f i = f j -> i = j) -> NoDup (map f (seq start len)).
Proof.
  intro Hinj. revert start. induction len as [|len IH]; intro start; simpl.
  - constructor.
  - constructor; [|apply IH].
    intro Hin. apply in_map_iff in Hin as (j & Hj & Hin).
    apply Hinj in Hj. subst j. apply in_seq in Hin. lia.
Qed.

Lemma NoDup_until_failure (ok : SegmentJob -> bool)
    (jobs : list SegmentJob) :
  NoDup (map job_output jobs) ->
  NoDup (map job_output (until_failure ok jobs)).
Proof.
  induction jobs as [|j jobs IH]; simpl; intro H; [constructor|].
  apply NoDup_cons_iff in H as [Hj H].
  destruct (ok j); simpl.
  - constructor; [|now apply IH].
    intro Hin. apply Hj. apply in_map_iff in Hin as (k & Hk & Hin).
    apply in_map_iff. exists k. split; [assumption|].
    now apply until_failure_incl in Hin.
  - constructor; [intros [] | constructor].
Qed.

Variable env : Env.
Hypothesis path_join_inj :
  forall folder a b, path_join env folder a = path_join env folder b -> a = b.

Lemma Portrait_fixed_outputs (folder base aspect : string) (d : Q) :
  NoDup (map job_output (Portrait.fixed_jobs env folder base aspect d)).
Proof.
  unfold Portrait.fixed_jobs, range. rewrite map_map.
  apply NoDup_map_seq. intros i j H.
  unfold Portrait.fixed_job, Portrait.segment_job in H. cbn [job_output] in H.
  apply path_join_inj in H. now apply fixed_name_inj in H.
Qed.

Lemma FullScreen_fixed_outputs (args : FullScreen.Args)
    (folder base : string) (d : Q) :
  NoDup (map job_output (FullScreen.fixed_jobs env args folder base d)).
Proof.
  unfold FullScreen.fixed_jobs, range. rewrite map_map.
  apply NoDup_map_seq. intros i j H.
  unfold FullScreen.fixed_job, FullScreen.segment_job in H.
  cbn [job_output] in H.
  apply path_join_inj in H. now apply fixed_name_inj in H.
Qed.

Lemma custom_jobs_outputs (folder base aspect : string)
    (segs : list (Q * Q)) (idx : nat) :
  map job_output (Portrait.custom_jobs env folder base aspect idx segs)
  = map (fun i => path_join env folder
                    (base ++ "_part" ++ str_of_nat i ++ ".mp4"))
        (seq idx (List.length segs)).
Proof.
  revert idx. induction segs as [|seg segs IH]; intro idx; simpl;
    [reflexivity|].
  now rewrite IH.
Qed.

Lemma Portrait_custom_outputs (folder base aspect : string)
    (segs : list (Q * Q)) (idx : nat) :
  NoDup (map job_output
           (Portrait.custom_jobs env folder base aspect idx segs)).
Proof.
  rewrite custom_jobs_outputs. apply NoDup_map_seq. intros i j H.
  apply path_join_inj in H. now apply custom_name_inj in H.
Qed.

End OutputNames.

(** The encoder calls of a run of the Portrait script: none, or the jobs
    of the 60-second loop up to the first failure, or those of the custom
    loop up to the first failure. *)
Lemma Portrait_main_encodes_cases (env : Env) (args : Portrait.Args) :
  let base := base_name_of env (Portrait.input_video args) in
  let folder := path_join env (Portrait.output_dir args) base in
  encodes (Portrait.main env args) = []
  \/ (exists d,
         encodes (Portrait.main env args)
         = until_failure (encode_ok env)
             (Portrait.fixed_jobs env folder base (Portrait.aspect args) d))
  \/ (exists pts d,
         encodes (Portrait.main env args)
         = until_failure (encode_ok env)
             (Portrait.custom_jobs env folder base (Portrait.aspect args) 1
                (Portrait.custom_segments pts d))).
Proof.
  cbv zeta. unfold Portrait.main.
  destruct (ffmpeg_present env); [|left; reflexivity].
  destruct (is_file env (Portrait.input_video args)); [|left; reflexivity].
  cbn [negb]. cbv zeta.
  set (base := base_name_of env (Portrait.input_video args)).
  set (folder := path_join env (Portrait.output_dir args) base).
  destruct (String.eqb (Portrait.split_option args) "60").
  - unfold Portrait.main_fixed, Portrait.get_video_duration.
    destruct (String.eqb (Portrait.aspect args) "original");
      [left; reflexivity|].
    destruct (probe env (Portrait.input_video args)) as [d|];
      [|left; reflexivity].
    destruct (Qeq_bool d 0); [left; reflexivity|].
    right; left. exists d.
    rewrite <- Portrait_fixed_loop_encodes.
    destruct (Portrait.fixed_loop env _) as [evs done].
    cbn [fst app encodes]. rewrite encodes_app.
    destruct done; cbn [encodes]; now rewrite app_nil_r.
  - unfold Portrait.main_custom, Portrait.get_video_duration.
    destruct (Portrait.split_times args) as [[|t ts]|];
      try (left; reflexivity).
    destruct (Portrait.parse_all (t :: ts)) as [bad|pts];
      [left; reflexivity|].
    destruct (probe env (Portrait.input_video args)) as [d|];
      [|left; reflexivity].
    destruct (Qeq_bool d 0); [left; reflexivity|].
    destruct (Portrait.custom_segments pts d) as [|seg segs] eqn:Hs;
      [left; reflexivity|].
    right; right. exists pts, d. rewrite Hs.
    exact (Portrait_custom_loop_encodes env folder base
             (Portrait.aspect args) (seg :: segs) 1).
Qed.

Lemma FullScreen_main_encodes_cases (env : Env) (args : FullScreen.Args) :
  let base := base_name_of env (FullScreen.input args) in
  let folder := path_join env (FullScreen.output_dir args) base in
  encodes (FullScreen.main env args) = []
  \/ exists d,
       encodes (FullScreen.main env args)
       = FullScreen.fixed_jobs env args folder base d.
Proof.
  cbv zeta. unfold FullScreen.main, FullScreen.get_video_duration.
  destruct (ffmpeg_present env && ffprobe_present env);
    [|left; reflexivity].
  destruct (is_file env (FullScreen.input args)); [|left; reflexivity].
  cbn [negb]. cbv zeta.
  destruct (String.eqb (FullScreen.split_option args) "60");
    [|left; reflexivity].
  destruct (probe env (FullScreen.input args)) as [d|];
    [|left; reflexivity].
  right. exists d. cbn [app encodes].
  rewrite encodes_app, FullScreen_steps_encodes. cbn [encodes].
  now rewrite app_nil_r.
Qed.

(** X14.  Where joining a folder with two different file names gives two
    different paths, no run of either script sends two encoder calls to
    the same output file: the names of the 60-second segments carry the
    zero-padded index, those of the custom segments the plain index, and
    different indexes give different names. *)
Theorem outputs_distinct (env : Env)
    (path_join_inj : forall folder a b,
        path_join env folder a = path_join env folder b -> a = b)
    (pargs : Portrait.Args) (fargs : FullScreen.Args) :
  NoDup (map job_output (encodes (Portrait.main env pargs)))
  /\ NoDup (map job_output (encodes (FullScreen.main env fargs))).
Proof.
  split.
  - destruct (Portrait_main_encodes_cases env pargs)
      as [-> | [(d & ->) | (pts & d & ->)]].
    + constructor.
    + apply NoDup_until_failure. now apply Portrait_fixed_outputs.
    + apply NoDup_until_failure. now apply Portrait_custom_outputs.
  - destruct (FullScreen_main_encodes_cases env fargs) as [-> | (d & ->)].
    + constructor.
    + now apply FullScreen_fixed_outputs.
Qed.

Lemma outputs_distinct_witness :
  NoDup (map job_output
           (encodes (Portrait.main (sample_env (Some 125) (fun _ => true))
                       (portrait_args "60" None "portrait"))))
  /\ NoDup (map job_output
              (encodes (FullScreen.main
                          (sample_env (Some 125) (fun _ => true))
                          (fullscreen_args "60" "pad" None)))).
Proof.
  apply (outputs_distinct (sample_env (Some 125) (fun _ => true))).
  intros folder a b H. simpl in H.
  apply append_inv_head in H. injection H as H. exact H.
Defined.

(** ** Encoder calls in time order *)

Lemma ordered_map_seq (f : nat -> Q * Q) (start len : nat) :
  (forall i j, (i < j)%nat -> ends_before (f i) (f j)) ->
  StronglySorted ends_before (map f (seq start len)).
Proof.
  intro H. revert start. induction len as [|len IH]; intro start; simpl.
  - constructor.
  - constructor; [apply IH|].
    apply Forall_forall. intros s Hs.
    apply in_map_iff in Hs as (j & <- & Hj). apply in_seq in Hj.
    apply H. lia.
Qed.

Lemma next_start (i j : nat) :
  (i < j)%nat ->
  inject_Z (Z.of_nat i * 60) + 60 <= inject_Z (Z.of_nat j * 60).
Proof.
  intro H. rewrite !start_of_iteration.
  assert (inject_Z (Z.of_nat i) + 1 <= inject_Z (Z.of_nat j)).
  { rewrite <- inject_Z_succ, <- Zle_Qle. lia. }
  lra.
Qed.

Lemma min60_le (x : Q) : FullScreen.min60 x <= 60.
Proof.
  unfold FullScreen.min60. destruct (Qltb x 60) eqn:E.
  - apply Qltb_lt in E. now apply Qlt_le_weak.
  - apply Qle_refl.
Qed.

(** A runner that stops at the first failure makes the first few of the
    calls it was given. *)
Lemma until_failure_prefix (ok : SegmentJob -> bool)
    (jobs : list SegmentJob) :
  exists k, until_failure ok jobs = firstn k jobs.
Proof.
  induction jobs as [|j jobs [k IH]]; [now exists 0%nat|].
  simpl. destruct (ok j).
  - exists (S k). simpl. now rewrite IH.
  - now exists 1%nat.
Qed.

Lemma StronglySorted_prefix {A : Type} (R : A -> A -> Prop) (k : nat)
    (l : list A) :
  StronglySorted R l -> StronglySorted R (firstn k l).
Proof.
  intro H. revert k. induction H as [|x l Hl IH Hx]; intro k.
  - rewrite firstn_nil. constructor.
  - destruct k; simpl; constructor; [apply IH|].
    apply Forall_forall. intros y Hy.
    rewrite Forall_forall in Hx. apply Hx.
    rewrite <- (firstn_skipn k l). apply in_or_app. now left.
Qed.

Lemma Forall_prefix {A : Type} (P : A -> Prop) (k : nat) (l : list A) :
  Forall P l -> Forall P (firstn k l).
Proof.
  intro H. apply Forall_forall. intros y Hy.
  rewrite Forall_forall in H. apply H.
  rewrite <- (firstn_skipn k l). apply in_or_app. now left.
Qed.

(** Stretches of the video: each longer than zero, each ending at or
    before the start of every later one. *)
Lemma stretches_until_failure (ok : SegmentJob -> bool)
    (jobs : list SegmentJob) (stretches : list (Q * Q)) :
  map job_span jobs = map as_computed stretches ->
  Forall (fun g => 0 < snd g) stretches ->
  StronglySorted ends_before stretches ->
  exists stretches',
    map job_span (until_failure ok jobs) = map as_computed stretches'
    /\ Forall (fun g => 0 < snd g) stretches'
    /\ StronglySorted ends_before stretches'.
Proof.
  intros Hm Hp Hs. destruct (until_failure_prefix ok jobs) as [k ->].
  exists (firstn k stretches). split; [|split].
  - now rewrite <- !firstn_map, Hm.
  - now apply Forall_prefix.
  - now apply StronglySorted_prefix.
Qed.

(** X15.  In every run of the Portrait script the encoder calls go forward
    in time.  They are, in order, stretches of the video, each longer than
    zero and each ending at or before the start of every later one; a call
    is given the start of its stretch and, as its length, the double
    nearest to the length of the stretch.  So the starts of the calls
    increase strictly.  In every run of the FullScreen script each call
    ends at or before the start of every later call. *)
Theorem calls_in_time_order (env : Env) (pargs : Portrait.Args)
    (fargs : FullScreen.Args) :
  (exists stretches,
      map job_span (encodes (Portrait.main env pargs))
      = map as_computed stretches
      /\ Forall (fun g => 0 < snd g) stretches
      /\ StronglySorted ends_before stretches)
  /\ StronglySorted Qlt (map job_start (encodes (Portrait.main env pargs)))
  /\ StronglySorted ends_before
       (map job_span (encodes (FullScreen.main env fargs))).
Proof.
  assert (HP : exists stretches,
             map job_span (encodes (Portrait.main env pargs))
             = map as_computed stretches
             /\ Forall (fun g => 0 < snd g) stretches
             /\ StronglySorted ends_before stretches).
  { destruct (Portrait_main_encodes_cases env pargs)
      as [-> | [(d & ->) | (pts & d & ->)]].
    - exists []. repeat constructor.
    - apply (stretches_until_failure _ _
               (map (fun i => (inject_Z (Z.of_nat i * 60), 60))
                    (range (segment_count d)))).
      + unfold Portrait.fixed_jobs. rewrite !map_map.
        apply map_ext. intro i. reflexivity.
      + apply Forall_forall. intros g Hg.
        apply in_map_iff in Hg as (i & <- & _). reflexivity.
      + apply ordered_map_seq. intros i j Hij.
        unfold ends_before. cbn [fst snd]. now apply next_start.
    - apply (stretches_until_failure _ _
               (filter long_enough
                  (all_gaps (Portrait.cut_points pts d)))).
      + rewrite custom_jobs_spans. unfold Portrait.custom_segments.
        apply segments_of_filter.
      + destruct (all_gaps_ordered _ (cut_points_ascending pts d))
          as [Hnn _].
        rewrite Forall_forall in Hnn.
        apply Forall_forall. intros g Hg.
        apply filter_In in Hg as [Hg Hl].
        apply long_enough_positive; [now apply Hnn | exact Hl].
      + apply StronglySorted_filter.
        apply all_gaps_ordered, cut_points_ascending. }
  split; [exact HP|]. split.
  - destruct HP as (stretches & Hm & Hp & Hs).
    replace (map job_start (encodes (Portrait.main env pargs)))
      with (map fst (map job_span (encodes (Portrait.main env pargs))))
      by (rewrite map_map; reflexivity).
    rewrite Hm, starts_as_computed. now apply starts_increasing.
  - destruct (FullScreen_main_encodes_cases env fargs) as [-> | (d & ->)].
    + constructor.
    + rewrite FullScreen_fixed_jobs_spans.
      unfold FullScreen.fixed_plan, range.
      apply ordered_map_seq. intros i j Hij.
      unfold ends_before, FullScreen.fixed_segment. cbn [fst snd].
      pose proof (next_start i j Hij).
      pose proof (min60_le (d - inject_Z (Z.of_nat i * 60))).
      lra.
Qed.

(** X16.  In the 60-second mode of the FullScreen script, on a video of
    probed duration [D > 0], the encoder calls of a run tile the video:
    the first starts at zero, each next one starts where the one before
    it ends, and the last ends at [D]; this holds whether or not calls
    fail, since the loop goes on after a failure. *)
Theorem FullScreen_run_covers_video (env : Env) (args : FullScreen.Args)
    (D : Q)
    (Hbin : ffmpeg_present env && ffprobe_present env = true)
    (Hfile : is_file env (FullScreen.input args) = true)
    (Hopt : FullScreen.split_option args = "60")
    (Hprobe : probe env (FullScreen.input args) = Some D)
    (HD : 0 < D) :
  tiles 0 D (map job_span (encodes (FullScreen.main env args)))
  /\ total_length (map job_span (encodes (FullScreen.main env args))) == D.
Proof.
  rewrite (FullScreen_main_fixed_encodes env args D) by assumption.
  rewrite FullScreen_fixed_jobs_spans.
  pose proof (FullScreen_fixed_plan_tiles D HD) as Ht.
  split; [exact Ht|].
  rewrite (tiles_total_length 0 D _ Ht). ring.
Qed.

Lemma FullScreen_run_covers_video_witness :
  tiles 0 125
    (map job_span
       (encodes (FullScreen.main (sample_env (Some 125) (fun _ => false))
                   (fullscreen_args "60" "stretch" None))))
  /\ total_length
       (map job_span
          (encodes (FullScreen.main (sample_env (Some 125) (fun _ => false))
                      (fullscreen_args "60" "stretch" None)))) == 125.
Proof.
  apply (FullScreen_run_covers_video
           (sample_env (Some 125) (fun _ => false))
           (fullscreen_args "60" "stretch" None) 125); reflexivity.
Defined.
